(** * esp32_camera_mjpeg_multiclient: a shallow embedding

    The firmware of [esp32_camera_mjpeg_multiclient.ino] is three FreeRTOS
    tasks that share two globals ([camBuf], [camSize]), one binary semaphore
    ([frameSync]) and one bounded queue ([streamingClients]):

    - [camCB] grabs frames, copies them into one of two private buffers and
      publishes the (pointer, length) pair;
    - [streamCB] rotates through the queue of clients and sends each one the
      published frame;
    - [mjpegCB] runs the web server, whose handlers [handleJPGSstream] and
      [handleConfig] are embedded here.

    Integers are [Z] with the 32-bit wrap-around of the ESP32 written out,
    pointers are addresses in [Z] with [NULL = 0], memory is a map from
    block addresses to byte lists, and the three tasks are interleaved
    statement by statement by an executable [step] function. *)

From Stdlib Require Import ZArith List Bool Lia String Ascii.
From Stdlib Require Import Strings.Byte.
Import ListNotations.
Local Open Scope Z_scope.

Set Implicit Arguments.

(** ** Machine integers and pointers *)

(** [size_t], [uint32_t], [TickType_t] and [UBaseType_t] are 32 bits wide. *)
Definition wrap32 (x : Z) : Z := x mod 2 ^ 32.

(** What [printf]'s [%d] prints for a 32-bit word: its value as an [int]. *)
Definition as_int (x : Z) : Z :=
  let w := wrap32 x in if w <? 2 ^ 31 then w else w - 2 ^ 32.

Definition ptr := Z.
Definition NULL : ptr := 0.

(** ** The allocator: [allocateMemory] *)

Module Alloc.

(** What the allocator sees of the SDK: the figures reported by
    [ESP.getFreeHeap], [psramFound] and [ESP.getFreePsram], and the pointers
    that [malloc] and [ps_malloc] hand out for a request ([NULL] on failure). *)
Record sdk := {
  getFreeHeap : Z;
  psramFound : bool;
  getFreePsram : Z;
  malloc : Z -> ptr;
  ps_malloc : Z -> ptr
}.

(** The SDK calls the allocator makes, in order. *)
Inductive call :=
| Free (p : ptr)
| Malloc (n : Z) (r : ptr)
| PsMalloc (n : Z) (r : ptr)
| Restart.

Definition attempt_result (c : call) : option ptr :=
  match c with
  | Malloc _ r | PsMalloc _ r => Some r
  | Free _ | Restart => None
  end.

(** [ptr] after the two branches of the heap / PSRAM decision, with the
    allocation calls made on the way. *)
Definition try_allocate (e : sdk) (aSize : Z) : list call * ptr :=
  if aSize >? wrap32 (getFreeHeap e * 2) / 3 then
    if psramFound e && (getFreePsram e >? aSize)
    then ([PsMalloc aSize (ps_malloc e aSize)], ps_malloc e aSize)
    else ([], NULL)
  else
    let p := malloc e aSize in
    if (p =? NULL) && psramFound e && (getFreePsram e >? aSize)
    then ([Malloc aSize p; PsMalloc aSize (ps_malloc e aSize)], ps_malloc e aSize)
    else ([Malloc aSize p], p).

(** [allocateMemory aPtr aSize]: the calls made and the pointer returned;
    [None] when [ESP.restart] was called instead of returning. *)
Definition allocateMemory (e : sdk) (aPtr : ptr) (aSize : Z)
  : list call * option ptr :=
  let released := if aPtr =? NULL then [] else [Free aPtr] in
  let '(tried, p) := try_allocate e aSize in
  if p =? NULL
  then (released ++ tried ++ [Restart], None)
  else (released ++ tried, Some p).

End Alloc.

(** ** Frame slot capacity: the growth rule of [camCB] *)

(** [if (s > fSize[ifb]) fSize[ifb] = s * 4 / 3;] on 32-bit [size_t]. *)
Definition grow_size (fSize s : Z) : Z :=
  if s >? fSize then wrap32 (s * 4) / 3 else fSize.

(** [ifb++; ifb &= 1;] *)
Definition next_ifb (ifb : Z) : Z := Z.land (ifb + 1) 1.

(** The capacities of the two slots and the slot in turn. *)
Record slots := { cap0 : Z; cap1 : Z; turn : Z }.

Definition slots0 : slots := {| cap0 := 0; cap1 := 0; turn := 0 |}.

Definition cap_of (i : Z) (k : slots) : Z := if i =? 0 then cap0 k else cap1 k.

(** One pass of the capture loop on a frame of [s] bytes, as far as the
    capacities go. *)
Definition capture_size (k : slots) (s : Z) : slots :=
  if turn k =? 0
  then {| cap0 := grow_size (cap0 k) s; cap1 := cap1 k; turn := next_ifb (turn k) |}
  else {| cap0 := cap0 k; cap1 := grow_size (cap1 k) s; turn := next_ifb (turn k) |}.

Definition capture_sizes (k : slots) (ss : list Z) : slots :=
  fold_left capture_size ss k.

(** ** The /config endpoint: [getParameterFromUrl] and [handleConfig] *)

Module Config.

(** The setters of [sensor_t] that [handleConfig] calls. *)
Inductive setter :=
| set_framesize | set_quality | set_contrast | set_brightness
| set_saturation | set_gainceiling | set_colorbar | set_whitebal
| set_gain_ctrl | set_exposure_ctrl | set_hmirror | set_vflip
| set_awb_gain | set_agc_gain | set_aec_value | set_aec2
| set_dcw | set_bpc | set_wpc | set_raw_gma
| set_lenc | set_special_effect | set_wb_mode | set_ae_level.

(** How a run of the handler ends. *)
Inductive reply :=
| Send (code : Z) (content_type body : string)
| EspRestart.

(** The sentinel of [getParameterFromUrl]. *)
Definition NOT_PROVIDED : Z := -999999.

(** The parsed query string of the request: keys and values in order. *)
Definition query := list (string * string).

(** [WebServer::arg(name)]: the value of the first argument called [name],
    the empty string when there is none. *)
Fixpoint server_arg (q : query) (name : string) : string :=
  match q with
  | [] => EmptyString
  | (k, v) :: q' => if String.eqb k name then v else server_arg q' name
  end.

(** The query parameters in the order [handleConfig] reads them, each with
    the setter it is forwarded to. *)
Definition config_params : list (string * setter) :=
  [ ("resolution", set_framesize); ("quality", set_quality);
    ("contrast", set_contrast); ("brightness", set_brightness);
    ("saturation", set_saturation); ("gainceiling", set_gainceiling);
    ("colorbar", set_colorbar); ("awb", set_whitebal);
    ("agc", set_gain_ctrl); ("aec", set_exposure_ctrl);
    ("hmirror", set_hmirror); ("vflip", set_vflip);
    ("awb_gain", set_awb_gain); ("agc_gain", set_agc_gain);
    ("aec_value", set_aec_value); ("aec2", set_aec2);
    ("dcw", set_dcw); ("bpc", set_bpc); ("wpc", set_wpc);
    ("raw_gma", set_raw_gma); ("lenc", set_lenc);
    ("special_effect", set_special_effect); ("wb_mode", set_wb_mode);
    ("ae_level", set_ae_level) ]%string.

Section Handler.

(** [String::toInt] of the Arduino core, and the sensor driver: its state and
    what a setter does to it and returns. *)
Variable toInt : string -> Z.
Variable sensor : Type.
Variable drive : setter -> sensor -> Z -> sensor * Z.

Definition getParameterFromUrl (q : query) (name : string) : Z :=
  let var := server_arg q name in
  if (String.length var =? 0)%nat then NOT_PROVIDED else toInt var.

(** The locals of [handleConfig] that change, the sensor behind [s], and the
    setter calls made so far. *)
Record progress := {
  res : Z;
  cam_sensor : sensor;
  invoked : list (setter * Z)
}.

(** [value = getParameterFromUrl(name);
     if (value != -999999) { res = s->setter(s, value); }] *)
Definition forward (q : query) (g : progress) (p : string * setter) : progress :=
  let value := getParameterFromUrl q (fst p) in
  if negb (value =? NOT_PROVIDED) then
    let '(s', r) := drive (snd p) (cam_sensor g) value in
    {| res := r; cam_sensor := s'; invoked := invoked g ++ [(snd p, value)] |}
  else g.

Definition handleConfig (q : query) (s : sensor) : progress * reply :=
  let g := fold_left (forward q) config_params
             {| res := 0; cam_sensor := s; invoked := [] |} in
  let value := getParameterFromUrl q "reset" in
  if negb (value =? NOT_PROVIDED)
  then (g, EspRestart)
  else (g, Send 200 "text / plain" "OK").

(** The setter calls [handleConfig] makes for a query. *)
Definition setter_calls (q : query) (s : sensor) : list (setter * Z) :=
  invoked (fst (handleConfig q s)).

End Handler.

(** [String::toInt] is [atol]: blanks, an optional sign, then decimal digits
    up to the first other character, saturating at the bounds of [long]. *)
Definition is_blank (c : ascii) : bool :=
  let n := nat_of_ascii c in ((n =? 32) || ((9 <=? n) && (n <=? 13)))%nat.

Definition digit_of (c : ascii) : option Z :=
  let n := Z.of_nat (nat_of_ascii c) in
  if (48 <=? n) && (n <=? 57) then Some (n - 48) else None.

Fixpoint digits (acc : Z) (s : string) : Z :=
  match s with
  | EmptyString => acc
  | String c s' =>
      match digit_of c with
      | Some d => digits (acc * 10 + d) s'
      | None => acc
      end
  end.

Definition clamp_long (x : Z) : Z := Z.max (- 2 ^ 31) (Z.min (2 ^ 31 - 1) x).

Fixpoint atol (s : string) : Z :=
  match s with
  | EmptyString => 0
  | String c s' =>
      if is_blank c then atol s'
      else if Ascii.eqb c "-" then clamp_long (- digits 0 s')
      else if Ascii.eqb c "+" then clamp_long (digits 0 s')
      else clamp_long (digits 0 s)
  end.

End Config.

(** ** The three tasks *)

Module Firmware.

(** A [WiFiClient] object, named by the connection it wraps. *)
Definition client := nat.

Definition crlf : string := String "013" (String "010" EmptyString).

Definition HEADER : string :=
  ("HTTP/1.1 200 OK" ++ crlf ++
   "Access-Control-Allow-Origin: *" ++ crlf ++
   "Content-Type: multipart/x-mixed-replace; boundary=123456789000000000000987654321"
   ++ crlf)%string.
Definition BOUNDARY : string :=
  (crlf ++ "--123456789000000000000987654321" ++ crlf)%string.
Definition CTNTTYPE : string :=
  ("Content-Type: image/jpeg" ++ crlf ++ "Content-Length: ")%string.

(** What one [client->write] hands to the connection: a constant text, the
    [buf] that [sprintf(buf, "%d\r\n\r\n", n)] filled, or frame bytes. *)
Inductive chunk :=
| Text (t : string)
| Length (n : Z)
| Body (bs : list byte).

Definition FPS : Z := 14.

(** The length given to [xQueueCreate]. *)
Definition QUEUE_LENGTH : Z := 10.

(** Arrays of two, indexed like [fbs[ifb]]. *)
Definition upd {A} (a : Z -> A) (i : Z) (v : A) : Z -> A :=
  fun j => if j =? i then v else a j.

(** *** Memory *)

Definition memory := ptr -> option (list byte).

Definition mem_free (m : memory) (p : ptr) : memory :=
  if p =? NULL then m else upd m p None.

(** The [n] bytes at [p]; reading nothing touches no memory. *)
Definition mem_read (m : memory) (p : ptr) (n : Z) : option (list byte) :=
  if n =? 0 then Some []
  else match m p with
       | Some blk =>
           if n <=? Z.of_nat (List.length blk)
           then Some (firstn (Z.to_nat n) blk) else None
       | None => None
       end.

(** [memcpy(p, src, n)]: [None] when it would run over the block at [p]. *)
Definition memcpy (m : memory) (p : ptr) (src : list byte) (n : Z)
  : option memory :=
  if n =? 0 then Some m
  else match m p with
       | Some blk =>
           if n <=? Z.of_nat (List.length blk)
           then Some (upd m p (Some (firstn (Z.to_nat n) src
                                       ++ skipn (Z.to_nat n) blk)))
           else None
       | None => None
       end.

(** *** Program points *)

(** [camCB], one point per statement of its loop. *)
Inductive cam_pc :=
| C_run        (* cam.run(); s = cam.getSize(); *)
| C_check      (* if (s > fSize[ifb]) fSize[ifb] = s * 4 / 3; *)
| C_alloc      (* fbs[ifb] = allocateMemory(fbs[ifb], fSize[ifb]); *)
| C_copy       (* b = cam.getfb(); memcpy(fbs[ifb], b, s); *)
| C_delay      (* taskYIELD(); vTaskDelayUntil(...); *)
| C_take       (* xSemaphoreTake(frameSync, portMAX_DELAY); *)
| C_setbuf     (* camBuf = fbs[ifb]; *)
| C_setsize    (* camSize = s; *)
| C_toggle     (* ifb++; ifb &= 1; *)
| C_give       (* xSemaphoreGive(frameSync); *)
| C_notify     (* xTaskNotifyGive(tStream); *)
| C_idle.      (* if (eTaskGetState(tStream) == eSuspended) vTaskSuspend(NULL); *)

(** [streamCB]. *)
Inductive stream_pc :=
| S_wait       (* ulTaskNotifyTake(pdTRUE, portMAX_DELAY); xLastWakeTime = xTaskGetTickCount(); *)
| S_top        (* xFrequency = ...; activeClients = ...; if (activeClients) xFrequency /= activeClients; *)
| S_pop        (* xQueueReceive(streamingClients, &client, 0); *)
| S_conn       (* if (!client->connected()) *)
| S_delete     (* delete client; *)
| S_take       (* xSemaphoreTake(frameSync, portMAX_DELAY); *)
| S_w1         (* client->write(CTNTTYPE, cntLen); *)
| S_fmt        (* sprintf(buf, "%d\r\n\r\n", camSize); *)
| S_w2         (* client->write(buf, strlen(buf)); *)
| S_ldbuf      (* the argument (char* ) camBuf *)
| S_ldsize     (* the argument (size_t) camSize *)
| S_w3         (* client->write(camBuf, camSize); *)
| S_w4         (* client->write(BOUNDARY, bdrLen); *)
| S_requeue    (* xQueueSend(streamingClients, &client, 0); *)
| S_give       (* xSemaphoreGive(frameSync); taskYIELD(); *)
| S_suspend    (* vTaskSuspend(NULL); *)
| S_sleep.     (* taskYIELD(); vTaskDelayUntil(&xLastWakeTime, xFrequency); *)

(** [handleJPGSstream], run by the web server inside [mjpegCB]. *)
Inductive accept_pc :=
| A_idle       (* server.handleClient() has no /mjpeg request in hand *)
| A_check      (* if (!uxQueueSpacesAvailable(streamingClients)) return; *)
| A_w1         (* client->write(HEADER, hdrLen); *)
| A_w2         (* client->write(BOUNDARY, bdrLen); *)
| A_send       (* xQueueSend(streamingClients, &client, 0); *)
| A_res1       (* if (eTaskGetState(tCam) == eSuspended) vTaskResume(tCam); *)
| A_res2.      (* if (eTaskGetState(tStream) == eSuspended) vTaskResume(tStream); *)

(** The device as a whole: running, rebooting after [ESP.restart], or past
    an out-of-bounds access, after which C promises nothing. *)
Inductive power := Running | Restarting | Undefined.

(** *** State *)

(** Globals, RTOS objects and the heap. *)
Record shared := {
  camBuf : ptr;
  camSize : Z;
  frameSync : bool;                    (* the semaphore can be taken *)
  streamingClients : list client;
  notifyValue : Z;                     (* notification value of tStream *)
  camSuspended : bool;                 (* eTaskGetState(tCam) == eSuspended *)
  streamSuspended : bool;              (* eTaskGetState(tStream) == eSuspended *)
  heap : memory;
  device : power
}.

(** Locals of [camCB]; [cam_b] is the driver's frame buffer behind
    [cam.getfb()]. *)
Record cam_locals := {
  cpc : cam_pc;
  fbs : Z -> ptr;
  fSize : Z -> Z;
  ifb : Z;
  cam_s : Z;
  cam_b : list byte
}.

(** Locals of [streamCB]; [buf] holds the number [sprintf] printed. *)
Record stream_locals := {
  spc : stream_pc;
  xLastWakeTime : Z;
  xFrequency : Z;
  activeClients : Z;
  s_client : client;
  buf : Z;
  arg_ptr : ptr;
  arg_len : Z
}.

Record accept_locals := {
  apc : accept_pc;
  a_client : client
}.

(** The tick count, the network side, and the history of published frames
    (newest first), which the code does not keep. *)
Record outside := {
  now : Z;                             (* xTaskGetTickCount() *)
  connected : client -> bool;
  wire : list (client * chunk);        (* newest first *)
  published : list (list byte)
}.

Record state := {
  g : shared;
  cam : cam_locals;
  strm : stream_locals;
  acc : accept_locals;
  env : outside
}.

(** *** Field updates *)

Definition in_g (f : shared -> shared) (st : state) : state :=
  {| g := f (g st); cam := cam st; strm := strm st; acc := acc st; env := env st |}.
Definition in_cam (f : cam_locals -> cam_locals) (st : state) : state :=
  {| g := g st; cam := f (cam st); strm := strm st; acc := acc st; env := env st |}.
Definition in_strm (f : stream_locals -> stream_locals) (st : state) : state :=
  {| g := g st; cam := cam st; strm := f (strm st); acc := acc st; env := env st |}.
Definition in_acc (f : accept_locals -> accept_locals) (st : state) : state :=
  {| g := g st; cam := cam st; strm := strm st; acc := f (acc st); env := env st |}.
Definition in_env (f : outside -> outside) (st : state) : state :=
  {| g := g st; cam := cam st; strm := strm st; acc := acc st; env := f (env st) |}.

Definition set_camBuf (v : ptr) (x : shared) : shared :=
  {| camBuf := v; camSize := camSize x; frameSync := frameSync x;
     streamingClients := streamingClients x; notifyValue := notifyValue x;
     camSuspended := camSuspended x; streamSuspended := streamSuspended x;
     heap := heap x; device := device x |}.
Definition set_camSize (v : Z) (x : shared) : shared :=
  {| camBuf := camBuf x; camSize := v; frameSync := frameSync x;
     streamingClients := streamingClients x; notifyValue := notifyValue x;
     camSuspended := camSuspended x; streamSuspended := streamSuspended x;
     heap := heap x; device := device x |}.
Definition set_frameSync (v : bool) (x : shared) : shared :=
  {| camBuf := camBuf x; camSize := camSize x; frameSync := v;
     streamingClients := streamingClients x; notifyValue := notifyValue x;
     camSuspended := camSuspended x; streamSuspended := streamSuspended x;
     heap := heap x; device := device x |}.
Definition set_streamingClients (v : list client) (x : shared) : shared :=
  {| camBuf := camBuf x; camSize := camSize x; frameSync := frameSync x;
     streamingClients := v; notifyValue := notifyValue x;
     camSuspended := camSuspended x; streamSuspended := streamSuspended x;
     heap := heap x; device := device x |}.
Definition set_notifyValue (v : Z) (x : shared) : shared :=
  {| camBuf := camBuf x; camSize := camSize x; frameSync := frameSync x;
     streamingClients := streamingClients x; notifyValue := v;
     camSuspended := camSuspended x; streamSuspended := streamSuspended x;
     heap := heap x; device := device x |}.
Definition set_camSuspended (v : bool) (x : shared) : shared :=
  {| camBuf := camBuf x; camSize := camSize x; frameSync := frameSync x;
     streamingClients := streamingClients x; notifyValue := notifyValue x;
     camSuspended := v; streamSuspended := streamSuspended x;
     heap := heap x; device := device x |}.
Definition set_streamSuspended (v : bool) (x : shared) : shared :=
  {| camBuf := camBuf x; camSize := camSize x; frameSync := frameSync x;
     streamingClients := streamingClients x; notifyValue := notifyValue x;
     camSuspended := camSuspended x; streamSuspended := v;
     heap := heap x; device := device x |}.
Definition set_heap (v : memory) (x : shared) : shared :=
  {| camBuf := camBuf x; camSize := camSize x; frameSync := frameSync x;
     streamingClients := streamingClients x; notifyValue := notifyValue x;
     camSuspended := camSuspended x; streamSuspended := streamSuspended x;
     heap := v; device := device x |}.
Definition set_device (v : power) (x : shared) : shared :=
  {| camBuf := camBuf x; camSize := camSize x; frameSync := frameSync x;
     streamingClients := streamingClients x; notifyValue := notifyValue x;
     camSuspended := camSuspended x; streamSuspended := streamSuspended x;
     heap := heap x; device := v |}.

Definition set_cpc (v : cam_pc) (x : cam_locals) : cam_locals :=
  {| cpc := v; fbs := fbs x; fSize := fSize x; ifb := ifb x;
     cam_s := cam_s x; cam_b := cam_b x |}.
Definition set_fbs (v : Z -> ptr) (x : cam_locals) : cam_locals :=
  {| cpc := cpc x; fbs := v; fSize := fSize x; ifb := ifb x;
     cam_s := cam_s x; cam_b := cam_b x |}.
Definition set_fSize (v : Z -> Z) (x : cam_locals) : cam_locals :=
  {| cpc := cpc x; fbs := fbs x; fSize := v; ifb := ifb x;
     cam_s := cam_s x; cam_b := cam_b x |}.
Definition set_ifb (v : Z) (x : cam_locals) : cam_locals :=
  {| cpc := cpc x; fbs := fbs x; fSize := fSize x; ifb := v;
     cam_s := cam_s x; cam_b := cam_b x |}.
Definition set_frame (n : Z) (b : list byte) (x : cam_locals) : cam_locals :=
  {| cpc := cpc x; fbs := fbs x; fSize := fSize x; ifb := ifb x;
     cam_s := n; cam_b := b |}.

Definition set_spc (v : stream_pc) (x : stream_locals) : stream_locals :=
  {| spc := v; xLastWakeTime := xLastWakeTime x;
     xFrequency := xFrequency x; activeClients := activeClients x;
     s_client := s_client x; buf := buf x; arg_ptr := arg_ptr x;
     arg_len := arg_len x |}.
Definition set_pace (f n : Z) (x : stream_locals) : stream_locals :=
  {| spc := spc x; xLastWakeTime := xLastWakeTime x;
     xFrequency := f; activeClients := n;
     s_client := s_client x; buf := buf x; arg_ptr := arg_ptr x;
     arg_len := arg_len x |}.
Definition set_xLastWakeTime (v : Z) (x : stream_locals) : stream_locals :=
  {| spc := spc x; xLastWakeTime := v;
     xFrequency := xFrequency x; activeClients := activeClients x;
     s_client := s_client x; buf := buf x; arg_ptr := arg_ptr x;
     arg_len := arg_len x |}.
Definition set_s_client (v : client) (x : stream_locals) : stream_locals :=
  {| spc := spc x; xLastWakeTime := xLastWakeTime x;
     xFrequency := xFrequency x; activeClients := activeClients x;
     s_client := v; buf := buf x; arg_ptr := arg_ptr x; arg_len := arg_len x |}.
Definition set_buf (v : Z) (x : stream_locals) : stream_locals :=
  {| spc := spc x; xLastWakeTime := xLastWakeTime x;
     xFrequency := xFrequency x; activeClients := activeClients x;
     s_client := s_client x; buf := v; arg_ptr := arg_ptr x; arg_len := arg_len x |}.
Definition set_arg_ptr (v : ptr) (x : stream_locals) : stream_locals :=
  {| spc := spc x; xLastWakeTime := xLastWakeTime x;
     xFrequency := xFrequency x; activeClients := activeClients x;
     s_client := s_client x; buf := buf x; arg_ptr := v; arg_len := arg_len x |}.
Definition set_arg_len (v : Z) (x : stream_locals) : stream_locals :=
  {| spc := spc x; xLastWakeTime := xLastWakeTime x;
     xFrequency := xFrequency x; activeClients := activeClients x;
     s_client := s_client x; buf := buf x; arg_ptr := arg_ptr x; arg_len := v |}.

Definition set_apc (v : accept_pc) (x : accept_locals) : accept_locals :=
  {| apc := v; a_client := a_client x |}.

Definition hang_up (c : client) (x : outside) : outside :=
  {| now := now x;
     connected := fun d => if Nat.eqb d c then false else connected x d;
     wire := wire x; published := published x |}.
Definition put (c : client) (k : chunk) (x : outside) : outside :=
  {| now := now x; connected := connected x; wire := (c, k) :: wire x;
     published := published x |}.
Definition publish (f : list byte) (x : outside) : outside :=
  {| now := now x; connected := connected x; wire := wire x;
     published := f :: published x |}.
Definition tick (x : outside) : outside :=
  {| now := wrap32 (now x + 1); connected := connected x; wire := wire x;
     published := published x |}.

(** [client->write]. *)
Definition client_write (c : client) (k : chunk) (st : state) : state :=
  in_env (put c k) st.

(** [xQueueSend(streamingClients, &c, 0)]: appends when there is room and
    gives up at once when there is none; the code drops the result. *)
Definition xQueueSend (c : client) (x : shared) : shared :=
  if Z.of_nat (List.length (streamingClients x)) <? QUEUE_LENGTH
  then set_streamingClients (streamingClients x ++ [c]) x
  else x.

Definition uxQueueMessagesWaiting (x : shared) : Z :=
  Z.of_nat (List.length (streamingClients x)).

Definition uxQueueSpacesAvailable (x : shared) : Z :=
  QUEUE_LENGTH - Z.of_nat (List.length (streamingClients x)).

(** *** Steps *)

(** What moves the system: a task executes its next statement, the camera
    driver, the SDK's allocator or the network supply what the statement
    asks for. *)
Inductive action :=
| Grab (f : list byte)          (* camCB at [cam.run()]: the driver holds frame [f] *)
| Allocate (e : Alloc.sdk) (fill : list byte)
                                (* camCB at [allocateMemory]: the SDK's answers and
                                   what the new block happens to contain *)
| CamStep                       (* camCB, any other statement *)
| StreamStep                    (* streamCB *)
| Request (c : client)          (* the server hands GET /mjpeg on connection [c]
                                   to handleJPGSstream *)
| AcceptStep                    (* handleJPGSstream *)
| HangUp (c : client)           (* the peer of [c] goes away *)
| Tick.                         (* the tick interrupt *)

Section Tasks.

(** The tick rate of the FreeRTOS build, which [pdMS_TO_TICKS] multiplies by. *)
Variable configTICK_RATE_HZ : Z.

Definition pdMS_TO_TICKS (ms : Z) : Z :=
  wrap32 (wrap32 ms * wrap32 configTICK_RATE_HZ) / 1000.

(** [pdMS_TO_TICKS(1000 / FPS)], the period both loops start from. *)
Definition target_period : Z := pdMS_TO_TICKS (1000 / FPS).

Definition cam_goto (pc : cam_pc) : state -> state := in_cam (set_cpc pc).
Definition strm_goto (pc : stream_pc) : state -> state := in_strm (set_spc pc).
Definition acc_goto (pc : accept_pc) : state -> state := in_acc (set_apc pc).

Definition cam_step (a : action) (st : state) : option state :=
  let c := cam st in
  match cpc c, a with
  | C_run, Grab f =>
      if Z.of_nat (List.length f) <? 2 ^ 32
      then Some (cam_goto C_check
                   (in_cam (set_frame (Z.of_nat (List.length f)) f) st))
      else None
  | C_check, CamStep =>
      if cam_s c >? fSize c (ifb c)
      then Some (cam_goto C_alloc
                   (in_cam (set_fSize (upd (fSize c) (ifb c)
                                         (wrap32 (cam_s c * 4) / 3))) st))
      else Some (cam_goto C_copy st)
  | C_alloc, Allocate e fill =>
      let m := mem_free (heap (g st)) (fbs c (ifb c)) in
      match snd (Alloc.allocateMemory e (fbs c (ifb c)) (fSize c (ifb c))) with
      | None => Some (in_g (fun x => set_device Restarting (set_heap m x)) st)
      | Some p =>
          match m p with
          | None =>
              if Z.of_nat (List.length fill) =? fSize c (ifb c)
              then Some (cam_goto C_copy
                           (in_cam (set_fbs (upd (fbs c) (ifb c) p))
                              (in_g (set_heap (upd m p (Some fill))) st)))
              else None
          | Some _ => None
          end
      end
  | C_copy, CamStep =>
      match memcpy (heap (g st)) (fbs c (ifb c)) (cam_b c) (cam_s c) with
      | Some m => Some (cam_goto C_delay (in_g (set_heap m) st))
      | None => Some (in_g (set_device Undefined) st)
      end
  | C_delay, CamStep => Some (cam_goto C_take st)
  | C_take, CamStep =>
      if frameSync (g st)
      then Some (cam_goto C_setbuf (in_g (set_frameSync false) st))
      else None
  | C_setbuf, CamStep =>
      Some (cam_goto C_setsize (in_g (set_camBuf (fbs c (ifb c))) st))
  | C_setsize, CamStep =>
      Some (cam_goto C_toggle
              (in_env (publish (cam_b c)) (in_g (set_camSize (cam_s c)) st)))
  | C_toggle, CamStep =>
      Some (cam_goto C_give (in_cam (set_ifb (next_ifb (ifb c))) st))
  | C_give, CamStep =>
      Some (cam_goto C_notify (in_g (set_frameSync true) st))
  | C_notify, CamStep =>
      Some (cam_goto C_idle
              (in_g (fun x => set_notifyValue (wrap32 (notifyValue x + 1)) x) st))
  | C_idle, CamStep =>
      if streamSuspended (g st)
      then Some (cam_goto C_run (in_g (set_camSuspended true) st))
      else Some (cam_goto C_run st)
  | _, _ => None
  end.

(** One statement of [streamCB].  [vTaskDelayUntil(&xLastWakeTime,
    xFrequency)] moves [xLastWakeTime] on by [xFrequency] ticks, the
    instant at which the task is due again; how long the scheduler keeps
    the task off the processor is left open, as for every other step. *)
Definition stream_step (st : state) : option state :=
  let t := strm st in
  match spc t with
  | S_wait =>
      if 0 <? notifyValue (g st)
      then Some (strm_goto S_top
                   (in_strm (set_xLastWakeTime (now (env st)))
                      (in_g (set_notifyValue 0) st)))
      else None
  | S_top =>
      let n := uxQueueMessagesWaiting (g st) in
      if negb (n =? 0)
      then Some (strm_goto S_pop (in_strm (set_pace (target_period / n) n) st))
      else Some (strm_goto S_suspend (in_strm (set_pace target_period n) st))
  | S_pop =>
      match streamingClients (g st) with
      | c :: q =>
          Some (strm_goto S_conn
                  (in_strm (set_s_client c) (in_g (set_streamingClients q) st)))
      | [] => Some (in_g (set_device Undefined) st)
      end
  | S_conn =>
      if negb (connected (env st) (s_client t))
      then Some (strm_goto S_delete st)
      else Some (strm_goto S_take st)
  | S_delete => Some (strm_goto S_sleep st)
  | S_take =>
      if frameSync (g st)
      then Some (strm_goto S_w1 (in_g (set_frameSync false) st))
      else None
  | S_w1 => Some (strm_goto S_fmt (client_write (s_client t) (Text CTNTTYPE) st))
  | S_fmt => Some (strm_goto S_w2 (in_strm (set_buf (as_int (camSize (g st)))) st))
  | S_w2 => Some (strm_goto S_ldbuf (client_write (s_client t) (Length (buf t)) st))
  | S_ldbuf => Some (strm_goto S_ldsize (in_strm (set_arg_ptr (camBuf (g st))) st))
  | S_ldsize => Some (strm_goto S_w3 (in_strm (set_arg_len (camSize (g st))) st))
  | S_w3 =>
      match mem_read (heap (g st)) (arg_ptr t) (arg_len t) with
      | Some bs => Some (strm_goto S_w4 (client_write (s_client t) (Body bs) st))
      | None => Some (in_g (set_device Undefined) st)
      end
  | S_w4 => Some (strm_goto S_requeue (client_write (s_client t) (Text BOUNDARY) st))
  | S_requeue => Some (strm_goto S_give (in_g (xQueueSend (s_client t)) st))
  | S_give => Some (strm_goto S_sleep (in_g (set_frameSync true) st))
  | S_suspend => Some (strm_goto S_sleep (in_g (set_streamSuspended true) st))
  | S_sleep =>
      Some (strm_goto S_top
              (in_strm (set_xLastWakeTime
                          (wrap32 (xLastWakeTime t + xFrequency t))) st))
  end.

Definition accept_step (st : state) : option state :=
  let a := acc st in
  match apc a with
  | A_idle => None
  | A_check =>
      if uxQueueSpacesAvailable (g st) =? 0
      then Some (acc_goto A_idle st)
      else Some (acc_goto A_w1 st)
  | A_w1 => Some (acc_goto A_w2 (client_write (a_client a) (Text HEADER) st))
  | A_w2 => Some (acc_goto A_send (client_write (a_client a) (Text BOUNDARY) st))
  | A_send => Some (acc_goto A_res1 (in_g (xQueueSend (a_client a)) st))
  | A_res1 =>
      if camSuspended (g st)
      then Some (acc_goto A_res2 (in_g (set_camSuspended false) st))
      else Some (acc_goto A_res2 st)
  | A_res2 =>
      if streamSuspended (g st)
      then Some (acc_goto A_idle (in_g (set_streamSuspended false) st))
      else Some (acc_goto A_idle st)
  end.

(** One step of the device; [None] when the action cannot happen in [st]:
    the task is suspended or blocked, is not at that statement, or the
    device is no longer running. *)
Definition step (a : action) (st : state) : option state :=
  match device (g st) with
  | Running =>
      match a with
      | Grab _ | Allocate _ _ | CamStep =>
          if camSuspended (g st) then None else cam_step a st
      | StreamStep =>
          if streamSuspended (g st) then None else stream_step st
      | Request c =>
          match apc (acc st) with
          | A_idle => Some (in_acc (fun _ => {| apc := A_check; a_client := c |}) st)
          | _ => None
          end
      | AcceptStep => accept_step st
      | HangUp c => Some (in_env (hang_up c) st)
      | Tick => Some (in_env tick st)
      end
  | _ => None
  end.

Fixpoint exec (acts : list action) (st : state) : option state :=
  match acts with
  | [] => Some st
  | a :: rest =>
      match step a st with
      | Some st' => exec rest st'
      | None => None
      end
  end.

End Tasks.

(** The state [mjpegCB] leaves when it enters its loop: the semaphore given,
    the queue empty, both tasks created, the globals still zero. *)
Definition init : state :=
  {| g := {| camBuf := NULL; camSize := 0; frameSync := true;
             streamingClients := []; notifyValue := 0;
             camSuspended := false; streamSuspended := false;
             heap := fun _ => None; device := Running |};
     cam := {| cpc := C_run; fbs := fun _ => NULL; fSize := fun _ => 0;
               ifb := 0; cam_s := 0; cam_b := [] |};
     strm := {| spc := S_wait; xLastWakeTime := 0; xFrequency := 0;
                activeClients := 0;
                s_client := O; buf := 0; arg_ptr := NULL; arg_len := 0 |};
     acc := {| apc := A_idle; a_client := O |};
     env := {| now := 0; connected := fun _ => true; wire := [];
               published := [] |} |}.

Definition reachable (hz : Z) (st : state) : Prop :=
  exists acts, exec hz acts init = Some st.

(** *** Who holds [frameSync], and the invariant of the device *)

(** [camCB] is between its [xSemaphoreTake] and its [xSemaphoreGive]. *)
Definition cam_holds (pc : cam_pc) : bool :=
  match pc with
  | C_setbuf | C_setsize | C_toggle | C_give => true
  | _ => false
  end.

(** [streamCB] is between its [xSemaphoreTake] and its [xSemaphoreGive]. *)
Definition stream_holds (pc : stream_pc) : bool :=
  match pc with
  | S_w1 | S_fmt | S_w2 | S_ldbuf | S_ldsize | S_w3 | S_w4 | S_requeue
  | S_give => true
  | _ => false
  end.

(** The largest value [s * 4 / 3] can take on 32 bits. *)
Definition MAX_FSIZE : Z := (2 ^ 32 - 1) / 3.

(** [camCB] has copied the frame in hand into [fbs[ifb]] and not yet
    published it. *)
Definition cam_copied (pc : cam_pc) : bool :=
  match pc with
  | C_delay | C_take | C_setbuf | C_setsize => true
  | _ => false
  end.

(** [camBuf] already points at [fbs[ifb]]: between the assignment to
    [camBuf] and the toggle of [ifb]. *)
Definition cam_swapping (pc : cam_pc) : bool :=
  match pc with
  | C_setsize | C_toggle => true
  | _ => false
  end.

(** [camCB] has published the frame in hand. *)
Definition cam_published (pc : cam_pc) : bool :=
  match pc with
  | C_toggle | C_give | C_notify | C_idle => true
  | _ => false
  end.

Definition has_buf (pc : stream_pc) : bool :=
  match pc with
  | S_w2 | S_ldbuf | S_ldsize | S_w3 | S_w4 | S_requeue | S_give => true
  | _ => false
  end.

Definition has_arg_ptr (pc : stream_pc) : bool :=
  match pc with
  | S_ldsize | S_w3 => true
  | _ => false
  end.

(** Slot [i] is either empty or a live block of [fSize[i]] bytes. *)
Definition slot_ok (st : state) (i : Z) : Prop :=
  (fbs (cam st) i = NULL /\ fSize (cam st) i = 0) \/
  (fbs (cam st) i <> NULL /\
   exists blk, heap (g st) (fbs (cam st) i) = Some blk /\
               Z.of_nat (List.length blk) = fSize (cam st) i).

(** The frame of the latest publish: the head of the history. *)
Definition latest (st : state) : list byte := hd [] (published (env st)).

Record Inv (st : state) : Prop := {
  inv_sem :
    frameSync (g st)
    = negb (cam_holds (cpc (cam st)) || stream_holds (spc (strm st)));
  inv_excl :
    cam_holds (cpc (cam st)) && stream_holds (spc (strm st)) = false;
  inv_ifb : ifb (cam st) = 0 \/ ifb (cam st) = 1;
  inv_queue : Z.of_nat (List.length (streamingClients (g st))) <= QUEUE_LENGTH;
  inv_pop : spc (strm st) = S_pop -> streamingClients (g st) <> [];
  inv_frame : cam_s (cam st) = Z.of_nat (List.length (cam_b (cam st)));
  inv_fsize : forall i, 0 <= fSize (cam st) i <= MAX_FSIZE;
  inv_null : heap (g st) NULL = None;
  inv_this :
    cpc (cam st) = C_alloc \/ slot_ok st (ifb (cam st));
  inv_other : slot_ok st (1 - ifb (cam st));
  inv_apart :
    fbs (cam st) 0 <> NULL \/ fbs (cam st) 1 <> NULL ->
    fbs (cam st) 0 <> fbs (cam st) 1;
  inv_copied :
    cam_copied (cpc (cam st)) = true ->
    cam_s (cam st) <= MAX_FSIZE /\
    mem_read (heap (g st)) (fbs (cam st) (ifb (cam st))) (cam_s (cam st))
    = Some (cam_b (cam st));
  inv_size : 0 <= camSize (g st) <= MAX_FSIZE;
  inv_pub :
    cpc (cam st) <> C_setsize ->
    camSize (g st) = Z.of_nat (List.length (latest st)) /\
    mem_read (heap (g st)) (camBuf (g st)) (camSize (g st)) = Some (latest st);
  inv_which :
    if cam_swapping (cpc (cam st))
    then camBuf (g st) = fbs (cam st) (ifb (cam st))
    else camSize (g st) = 0 \/ camBuf (g st) = fbs (cam st) (1 - ifb (cam st));
  inv_first :
    published (env st) = [] ->
    notifyValue (g st) = 0 /\ spc (strm st) = S_wait /\
    cam_published (cpc (cam st)) = false;
  inv_buf :
    has_buf (spc (strm st)) = true -> buf (strm st) = as_int (camSize (g st));
  inv_arg_ptr :
    has_arg_ptr (spc (strm st)) = true -> arg_ptr (strm st) = camBuf (g st);
  inv_arg_len :
    spc (strm st) = S_w3 -> arg_len (strm st) = camSize (g st)
}.

End Firmware.

(** The capacity property as the specification words it: over any sequence
    of frame sizes a slot never shrinks, changes only for a frame larger
    than its capacity, and then holds at least 125% of that frame. *)
Definition capacity_never_shrinks : Prop :=
  forall (ss : list Z) (s i : Z),
    Forall (fun x => 0 <= x < 2 ^ 32) (ss ++ [s]) ->
    let k := capture_sizes slots0 ss in
    let k' := capture_size k s in
    cap_of i k <= cap_of i k' /\
    (cap_of i k' <> cap_of i k ->
     cap_of i k < s /\ 125 * s <= 100 * cap_of i k').

(** ** Statements about the /config endpoint *)

Module ConfigSpec.
Import Config.

(** The calls a table of parameters gives rise to: one for each parameter
    whose value is not the sentinel, in the order of the table. *)
Definition forwarded (toInt : string -> Z) (q : query)
    (ps : list (string * setter)) : list (setter * Z) :=
  flat_map (fun p =>
              let value := getParameterFromUrl toInt q (fst p) in
              if negb (value =? NOT_PROVIDED) then [(snd p, value)] else [])
           ps.

(** A driver that does nothing, for running the handler on its own. *)
Definition idle_driver (_ : setter) (s : unit) (_ : Z) : unit * Z := (s, 0).

(** [handleConfig] calls setter [st] on query [q]. *)
Definition calls_setter (q : query) (st : setter) : Prop :=
  exists v, In (st, v) (setter_calls atol idle_driver q tt).

(** The sentinel property as the specification words it: whether the setter
    of a parameter that the query supplies is called does not depend on the
    value supplied. *)
Definition sentinel_is_no_value : Prop :=
  forall (name : string) (st : setter) (value1 value2 : string),
    In (name, st) config_params ->
    value1 <> EmptyString -> value2 <> EmptyString ->
    (calls_setter [(name, value1)] st <-> calls_setter [(name, value2)] st).

End ConfigSpec.

(** ** Statements about the tasks *)

(** A suspended task rests where [vTaskSuspend] left it. *)
Definition parked (st : Firmware.state) : Prop :=
  (Firmware.streamSuspended (Firmware.g st) = true ->
   Firmware.spc (Firmware.strm st) = Firmware.S_sleep) /\
  (Firmware.camSuspended (Firmware.g st) = true ->
   Firmware.cpc (Firmware.cam st) = Firmware.C_run).

(** ** A sample run *)

Module Sample.
Import Firmware.

(** An SDK with room on the heap whose [malloc] answers [p]. *)
Definition sdk_with (p : ptr) : Alloc.sdk :=
  {| Alloc.getFreeHeap := 200000; Alloc.psramFound := true;
     Alloc.getFreePsram := 4000000;
     Alloc.malloc := fun _ => p; Alloc.ps_malloc := fun _ => NULL |}.

Definition frame1 : list byte := [xff; xd8; xff; xd9; x00; x01].

(** [handleJPGSstream] from the request for [c] to its return. *)
Definition register (c : client) : list action :=
  [Request c; AcceptStep; AcceptStep; AcceptStep; AcceptStep; AcceptStep;
   AcceptStep].

(** One pass of [camCB] that grows the slot in turn: frame [f], new block
    at [p]. *)
Definition capture (f : list byte) (p : ptr) (fill : list byte)
  : list action :=
  [Grab f; CamStep; Allocate (sdk_with p) fill; CamStep; CamStep; CamStep;
   CamStep; CamStep; CamStep; CamStep; CamStep; CamStep].

(** Client 1 registers, the first frame is published, and [streamCB] goes
    from its wait to the point of writing the body. *)
Definition to_body : list action :=
  register 1%nat
  ++ capture frame1 64 [x00; x00; x00; x00; x00; x00; x00; x00]
  ++ [StreamStep; StreamStep; StreamStep; StreamStep; StreamStep;
      StreamStep; StreamStep; StreamStep; StreamStep; StreamStep].

Definition run (acts : list action) : state :=
  match exec 1000 acts init with
  | Some st => st
  | None => init
  end.

End Sample.

(** The exclusion property as the specification words it: whenever a step
    writes to a client connection, [frameSync] is not held. *)
Definition no_lock_across_io (hz : Z) : Prop :=
  forall (st st' : Firmware.state) (a : Firmware.action)
         (c : Firmware.client) (k : Firmware.chunk),
    Firmware.reachable hz st -> Firmware.step hz a st = Some st' ->
    Firmware.wire (Firmware.env st')
    = (c, k) :: Firmware.wire (Firmware.env st) ->
    Firmware.frameSync (Firmware.g st) = true.

(** The step is one of [camCB]'s. *)
Definition by_cam (a : Firmware.action) : Prop :=
  match a with
  | Firmware.Grab _ | Firmware.Allocate _ _ | Firmware.CamStep => True
  | _ => False
  end.

Module Sample2.
Import Firmware.

(** As [Sample.to_body], stopped when [streamCB] has just taken
    [frameSync]. *)
Definition to_header : list action :=
  Sample.register 1%nat
  ++ Sample.capture Sample.frame1 64 [x00; x00; x00; x00; x00; x00; x00; x00]
  ++ [StreamStep; StreamStep; StreamStep; StreamStep; StreamStep].

End Sample2.

Module Scenario.
Import Firmware.

(** Client 1 registers, the first frame is published, and [streamCB]
    wakes up at the top of its loop. *)
Definition to_top : list action :=
  Sample.register 1%nat
  ++ Sample.capture Sample.frame1 64 [x00; x00; x00; x00; x00; x00; x00; x00]
  ++ [StreamStep].

(** Ten clients register and the first frame is published. *)
Definition full_house : list action :=
  flat_map Sample.register (seq 1 10)
  ++ Sample.capture Sample.frame1 64 [x00; x00; x00; x00; x00; x00; x00; x00].

(** With ten clients registered, [streamCB] pops client 1 and finds it
    connected; before it gets to re-enqueue it, the server accepts client
    11; [streamCB] then serves client 1 and tries to put it back. *)
Definition late_arrival : list action :=
  full_house
  ++ [StreamStep; StreamStep; StreamStep; StreamStep]
  ++ Sample.register 11%nat
  ++ [StreamStep; StreamStep; StreamStep; StreamStep; StreamStep;
      StreamStep; StreamStep; StreamStep; StreamStep; StreamStep].

End Scenario.

(** ** What reaches the clients *)

Module Wire.
Import Firmware.

(** A length line or a frame body, as opposed to the constant texts. *)
Definition is_frame_part (e : client * chunk) : bool :=
  match snd e with
  | Text _ => false
  | Length _ | Body _ => true
  end.

(** The length lines and bodies written so far, newest first. *)
Definition frame_parts (w : list (client * chunk)) : list (client * chunk) :=
  filter is_frame_part w.

(** A frame [f] served whole to client [c]: its length line, then its
    body (newest first). *)
Definition answer (s : client * list byte) : list (client * chunk) :=
  [(fst s, Body (snd s)); (fst s, Length (Z.of_nat (List.length (snd s))))].

(** [streamCB] has written the length line of the frame it is serving and
    not yet the body. *)
Definition header_sent (pc : stream_pc) : bool :=
  match pc with
  | S_ldbuf | S_ldsize | S_w3 => true
  | _ => false
  end.

Definition pending (st : state) : list (client * chunk) :=
  if header_sent (spc (strm st))
  then [(s_client (strm st), Length (buf (strm st)))]
  else [].

(** Everything written besides the constant texts is a sequence of whole
    answers, each a published frame, plus the length line of the answer in
    progress. *)
Definition wire_ok (st : state) : Prop :=
  exists served : list (client * list byte),
    frame_parts (wire (env st)) = pending st ++ flat_map answer served /\
    forall s, In s served -> In (snd s) (published (env st)).

End Wire.

(** ** Runs of the tasks *)

Module Runs.
Import Firmware.

(** The step is [streamCB]'s [vTaskDelayUntil], the last statement of its
    loop body. *)
Definition is_delay (a : action) (st : state) : bool :=
  match a, spc (strm st) with
  | StreamStep, S_sleep => true
  | _, _ => false
  end.

(** As [exec], for runs that stay inside one iteration of [streamCB]'s
    loop: every task may move, [streamCB] not past its delay. *)
Fixpoint exec_iteration (hz : Z) (acts : list action) (st : state)
  : option state :=
  match acts with
  | [] => Some st
  | a :: rest =>
      if is_delay a st then None
      else match step hz a st with
           | Some st1 => exec_iteration hz rest st1
           | None => None
           end
  end.

(** No request for the stream is being handled. *)
Definition quiet (a : action) : Prop :=
  match a with
  | Request _ | AcceptStep => False
  | _ => True
  end.

Definition is_cam (a : action) : bool :=
  match a with
  | Grab _ | Allocate _ _ | CamStep => true
  | _ => false
  end.

(** How many statements of [camCB] the run executes. *)
Definition cam_steps (acts : list action) : nat :=
  List.length (filter is_cam acts).

(** An upper bound on the statements [camCB] executes from [pc] up to and
    including its check of [tStream]'s state. *)
Definition cam_rank (pc : cam_pc) : nat :=
  match pc with
  | C_run => 12
  | C_check => 11
  | C_alloc => 10
  | C_copy => 9
  | C_delay => 8
  | C_take => 7
  | C_setbuf => 6
  | C_setsize => 5
  | C_toggle => 4
  | C_give => 3
  | C_notify => 2
  | C_idle => 1
  end%nat.

(** [streamCB] suspends itself only after counting no client. *)
Definition counted (st : state) : Prop :=
  (streamSuspended (g st) = true -> activeClients (strm st) = 0) /\
  (spc (strm st) = S_suspend -> activeClients (strm st) = 0).

End Runs.

Module Scenario2.
Import Firmware.

(** Clients 1 and 2 register, the first frame is published, three ticks
    pass and [streamCB] wakes up at the top of its loop. *)
Definition two_watching : list action :=
  Sample.register 1%nat ++ Sample.register 2%nat
  ++ Sample.capture Sample.frame1 64 [x00; x00; x00; x00; x00; x00; x00; x00]
  ++ [Tick; Tick; Tick; StreamStep].

(** [streamCB] serves client 1 up to its delay while a tick passes and
    [camCB] grabs the next frame. *)
Definition serve_one : list action :=
  [StreamStep; StreamStep; Tick; StreamStep; StreamStep; StreamStep;
   Grab Sample.frame1; StreamStep; StreamStep; StreamStep; CamStep;
   StreamStep; StreamStep; StreamStep; StreamStep].

End Scenario2.

Module Scenario3.
Import Firmware.

(** Ten clients are registered and a frame is published; [streamCB] wakes
    up, computes its period and pops client 1. *)
Definition popped : list action :=
  Scenario.full_house ++ [StreamStep; StreamStep; StreamStep].

(** The server then accepts client 11: [handleJPGSstream] finds one free
    slot and writes its prologue.  Before it gets to its [xQueueSend],
    [streamCB] serves client 1 and puts it back, which fills the queue.
    The handler then runs to its end. *)
Definition late_push : list action :=
  popped
  ++ [Request 11%nat; AcceptStep; AcceptStep; AcceptStep]
  ++ [StreamStep; StreamStep; StreamStep; StreamStep; StreamStep;
      StreamStep; StreamStep; StreamStep; StreamStep; StreamStep]
  ++ [AcceptStep; AcceptStep; AcceptStep].

(** What has been written to connection [c], newest first. *)
Definition sent_to (c : client) (w : list (client * chunk))
  : list (client * chunk) :=
  filter (fun e => Nat.eqb (fst e) c) w.

End Scenario3.

(** ** Frames that fit their slot *)

(** Once [camCB] has dealt with the size of the frame in hand, the slot in
    turn has room for it, provided [s * 4] did not wrap. *)
Definition fits (st : Firmware.state) : Prop :=
  Firmware.cpc (Firmware.cam st) = Firmware.C_alloc \/
  Firmware.cpc (Firmware.cam st) = Firmware.C_copy ->
  Firmware.cam_s (Firmware.cam st) < 2 ^ 30 ->
  Firmware.cam_s (Firmware.cam st)
  <= Firmware.fSize (Firmware.cam st) (Firmware.ifb (Firmware.cam st)).

Module Sample3.
Import Firmware.

(** [camCB] has grabbed its first frame and been given a block for it. *)
Definition to_copy : list action :=
  [Grab Sample.frame1; CamStep;
   Allocate (Sample.sdk_with 64) [x00; x00; x00; x00; x00; x00; x00; x00]].

End Sample3.

Module Scenario4.
Import Firmware.

(** Client 1 registers and a frame is published; [streamCB] pops client 1,
    which has hung up meanwhile, deletes it, and at the top of its next
    iteration counts no client. *)
Definition none_left : list action :=
  Scenario.to_top
  ++ [StreamStep; StreamStep; HangUp 1%nat; StreamStep; StreamStep;
      StreamStep; StreamStep].

(** [streamCB] then suspends itself, and [camCB] does so at the end of its
    next pass. *)
Definition all_idle : list action :=
  none_left ++ [StreamStep]
  ++ Sample.capture Sample.frame1 128 [x00; x00; x00; x00; x00; x00; x00; x00].

(** Instead, client 2 registers after [streamCB] has counted no client and
    before it suspends itself. *)
Definition missed_wakeup : list action :=
  none_left ++ Sample.register 2%nat ++ [StreamStep].

End Scenario4.

Module Service.
Import Firmware.

(** [streamCB] from its [xQueueReceive] to its delay when the client is
    connected: twelve statements. *)
Definition serve : list action := repeat StreamStep 12.

(** The same when the client has gone: receive, check, delete. *)
Definition discard : list action := repeat StreamStep 3.

(** What one service writes to client [c] for frame [f], newest first. *)
Definition part (c : client) (f : list byte) : list (client * chunk) :=
  [(c, Text BOUNDARY); (c, Body f);
   (c, Length (Z.of_nat (List.length f))); (c, Text CTNTTYPE)].

End Service.

Module ConfigRun.
Import Config.

(** The sensor and the last return value after a list of setter calls. *)
Definition replay (sensor : Type)
    (drive : setter -> sensor -> Z -> sensor * Z)
    (calls : list (setter * Z)) (start : sensor * Z) : sensor * Z :=
  fold_left (fun sr c => drive (fst c) (fst sr) (snd c)) calls start.

(** The setters [handleConfig] knows, in the order of its source. *)
Definition setters_in_order : list setter := map snd config_params.

End ConfigRun.

Module Capture.
Import Firmware.

(** [camCB] from its [memcpy] to its [xTaskNotifyGive]: eight
    statements. *)
Definition finish : list action := repeat CamStep 8.

End Capture.

Module Rotation.
Import Firmware.

(** One whole iteration of [streamCB] for a connected client, from one
    [xQueueReceive] to the next: the service, the delay and the top of the
    loop. *)
Definition round : list action := repeat StreamStep 14.

(** [k] such iterations and then the three statements that discard a
    client. *)
Definition until_discarded (k : nat) : list action :=
  repeat StreamStep (14 * k + 3).

End Rotation.

Module Scenario5.
Import Firmware.

(** Clients 1, 2 and 3 register and a frame is published; client 2 hangs
    up; [streamCB] wakes up and is about to pop the first client. *)
Definition middle_gone : list action :=
  Sample.register 1%nat ++ Sample.register 2%nat ++ Sample.register 3%nat
  ++ Sample.capture Sample.frame1 64 [x00; x00; x00; x00; x00; x00; x00; x00]
  ++ [HangUp 2%nat; StreamStep; StreamStep].

End Scenario5.

(** * Proofs *)

Unset Implicit Arguments.
Import Firmware.

(** ** Memory and small facts *)

Lemma allocate_nonnull e p n q :
  snd (Alloc.allocateMemory e p n) = Some q -> q <> NULL.
Proof.
  unfold Alloc.allocateMemory.
  destruct (Alloc.try_allocate e n) as [tried r].
  destruct (r =? NULL) eqn:E; simpl; intros H; inversion H; subst.
  apply Z.eqb_neq; assumption.
Qed.

Lemma mem_read_upd m p v q n :
  n = 0 \/ p <> q -> mem_read (upd m p v) q n = mem_read m q n.
Proof.
  intros H. unfold mem_read, upd.
  destruct (n =? 0) eqn:E; [reflexivity|].
  destruct H as [H|H]; [apply Z.eqb_neq in E; contradiction|].
  destruct (q =? p) eqn:Eq; [apply Z.eqb_eq in Eq; congruence|reflexivity].
Qed.

Lemma mem_read_free m p q n :
  n = 0 \/ p <> q -> mem_read (mem_free m p) q n = mem_read m q n.
Proof.
  intros H. unfold mem_free. destruct (p =? NULL); [reflexivity|].
  apply mem_read_upd; assumption.
Qed.

Lemma mem_read_live m p n bs :
  mem_read m p n = Some bs -> n = 0 \/ exists blk, m p = Some blk.
Proof.
  unfold mem_read. destruct (n =? 0) eqn:E.
  - left. apply Z.eqb_eq; assumption.
  - destruct (m p); [right; eauto | discriminate].
Qed.

Lemma next_ifb_flip i : i = 0 \/ i = 1 -> next_ifb i = 1 - i.
Proof. intros [->| ->]; reflexivity. Qed.

Lemma fsize_bound x : 0 <= wrap32 x / 3 <= MAX_FSIZE.
Proof.
  unfold wrap32, MAX_FSIZE.
  assert (0 <= x mod 2 ^ 32 < 2 ^ 32) by (apply Z.mod_pos_bound; lia).
  split.
  - apply Z.div_pos; lia.
  - apply Z.div_le_mono; lia.
Qed.


Lemma upd_same A (a : Z -> A) i v : upd a i v i = v.
Proof. unfold upd. rewrite Z.eqb_refl. reflexivity. Qed.

Lemma upd_other A (a : Z -> A) i v j : j <> i -> upd a i v j = a j.
Proof. unfold upd. intros H. apply Z.eqb_neq in H. rewrite H. reflexivity. Qed.

Lemma mem_free_null m p : m NULL = None -> mem_free m p NULL = None.
Proof.
  intros H. unfold mem_free. destruct (p =? NULL); [assumption|].
  unfold upd. destruct (NULL =? p); [reflexivity | assumption].
Qed.

Lemma mem_free_other m p q : q <> p -> mem_free m p q = m q.
Proof.
  intros H. unfold mem_free. destruct (p =? NULL); [reflexivity|].
  apply upd_other. assumption.
Qed.

Lemma stream_holds_buf pc : stream_holds pc = false -> has_buf pc = false.
Proof. destruct pc; simpl; congruence. Qed.

Lemma stream_holds_arg_ptr pc : stream_holds pc = false -> has_arg_ptr pc = false.
Proof. destruct pc; simpl; congruence. Qed.

Lemma stream_holds_w3 pc : stream_holds pc = false -> pc <> S_w3.
Proof. destruct pc; simpl; congruence. Qed.

Local Arguments Z.sub : simpl never.
Local Arguments Z.add : simpl never.
Local Arguments Z.mul : simpl never.
Local Arguments Z.div : simpl never.
Local Arguments Z.of_nat : simpl never.
Local Arguments Z.pow : simpl never.

Ltac inv_cases H :=
  destruct H as [Hsem Hexcl Hifb Hqueue Hpop Hframe Hfsize Hnull Hthis Hother
                 Hapart Hcopied Hsize Hpub Hwhich Hfirst Hbuf Hargp Hargl].

Ltac easy_field :=
  first [ assumption | reflexivity | discriminate
        | solve [intros; first [discriminate | assumption | reflexivity ]] ].

Ltac hyp_prep Hthis Hpub Hcopied :=
  try (destruct Hthis as [Hthis|Hthis]; [discriminate Hthis|]);
  first [ specialize (Hpub ltac:(discriminate)) | clear Hpub ];
  first [ specialize (Hcopied eq_refl) | clear Hcopied ].

Ltac goal_prep :=
  try match goal with
  | |- ?a <> ?a -> _ =>
      let X := fresh in intros X; exfalso; apply X; reflexivity
  | |- _ <> _ -> _ => intros _
  | |- _ = C_alloc \/ _ => first [left; reflexivity | right]
  end.

Ltac open_step H Hpc :=
  injection H as <-; constructor; cbn; rewrite ?Hpc; cbn; goal_prep;
  try easy_field.


Lemma other_slot i : i = 0 \/ i = 1 -> 1 - i <> i /\ (1 - i = 0 \/ 1 - i = 1).
Proof. intros [->| ->]; split; try discriminate; auto. Qed.

Lemma first_gone st :
  (published (env st) = [] ->
   notifyValue (g st) = 0 /\ spc (strm st) = S_wait /\ true = false) ->
  published (env st) <> [].
Proof. intros H E. destruct (H E) as (_ & _ & X). discriminate X. Qed.

Lemma memcpy_spec m p src n m' :
  memcpy m p src n = Some m' -> n = Z.of_nat (List.length src) ->
  (n = 0 /\ m' = m) \/
  (n <> 0 /\ exists blk, m p = Some blk /\ n <= Z.of_nat (List.length blk) /\
     m' = upd m p (Some (src ++ skipn (List.length src) blk))).
Proof.
  unfold memcpy. intros H Hn. destruct (n =? 0) eqn:E.
  - left. apply Z.eqb_eq in E. split; congruence.
  - right. apply Z.eqb_neq in E. split; [assumption|].
    destruct (m p) as [blk|]; [|discriminate]. exists blk.
    destruct (n <=? Z.of_nat (List.length blk)) eqn:Hle; [|discriminate].
    apply Z.leb_le in Hle. split; [reflexivity|]. split; [assumption|].
    injection H as <-. subst n. rewrite Nat2Z.id, firstn_all. reflexivity.
Qed.

Lemma mem_read_written m p src rest :
  src <> [] ->
  mem_read (upd m p (Some (src ++ rest))) p (Z.of_nat (List.length src))
  = Some src.
Proof.
  intros Hs. unfold mem_read.
  destruct (Z.of_nat (List.length src) =? 0) eqn:E.
  - apply Z.eqb_eq in E. destruct src; [contradiction | discriminate].
  - rewrite upd_same.
    rewrite length_app.
    destruct (Z.of_nat (List.length src)
              <=? Z.of_nat (List.length src + List.length rest)) eqn:Hle.
    + rewrite Nat2Z.id. rewrite firstn_app, firstn_all, Nat.sub_diag.
      cbn. rewrite app_nil_r. reflexivity.
    + apply Z.leb_gt in Hle. lia.
Qed.

Lemma cam_step_inv a st st' :
  Inv st -> cam_step a st = Some st' -> Inv st'.
Proof.
  intros HI. inv_cases HI. unfold cam_step.
  destruct (cpc (cam st)) eqn:Hpc; destruct a; try discriminate; intros H;
  cbn [cam_holds cam_copied cam_swapping cam_published orb andb negb] in *;
  hyp_prep Hthis Hpub Hcopied.
  - (* C_run *)
    destruct (Z.of_nat (Datatypes.length f) <? 2 ^ 32); [|discriminate].
    open_step H Hpc.
  - (* C_check *)
    destruct (cam_s (cam st) >? fSize (cam st) (ifb (cam st))).
    + open_step H Hpc.
      * intros i. unfold upd. destruct (i =? ifb (cam st)).
        -- apply fsize_bound.
        -- apply Hfsize.
      * destruct (other_slot _ Hifb) as [Hne _].
        unfold slot_ok in *; cbn. rewrite upd_other by assumption. assumption.
    + open_step H Hpc.
  - (* C_alloc *)
    destruct (other_slot _ Hifb) as [Hne Hoth].
    clear Hthis.
    remember (ifb (cam st)) as i eqn:Ei.
    remember (1 - i) as o eqn:Eo.
    assert (Hio : fbs (cam st) i <> NULL \/ fbs (cam st) o <> NULL ->
                  fbs (cam st) i <> fbs (cam st) o).
    { rewrite Eo. destruct Hifb as [E|E]; rewrite E;
        [change (1 - 0) with 1 | change (1 - 1) with 0];
        intros X Y; apply Hapart; [tauto | congruence | tauto | congruence]. }
    remember (mem_free (heap (g st)) (fbs (cam st) i)) as m eqn:Em.
    assert (Hmnull : m NULL = None) by (subst m; apply mem_free_null; assumption).
    assert (Hmo : (fbs (cam st) o = NULL /\ fSize (cam st) o = 0) \/
                  (fbs (cam st) o <> NULL /\
                   exists blk, m (fbs (cam st) o) = Some blk /\
                     Z.of_nat (List.length blk) = fSize (cam st) o)).
    { destruct Hother as [Ho|[Ho1 Ho2]]; [left; assumption|right].
      split; [assumption|]. subst m. rewrite mem_free_other; [assumption|].
      intros X. apply Hio; auto. }
    assert (Hmread : mem_read m (camBuf (g st)) (camSize (g st)) = Some (latest st)).
    { destruct Hpub as [_ Hr]. rewrite <- Hr. subst m.
      unfold mem_free. destruct (fbs (cam st) i =? NULL) eqn:En; [reflexivity|].
      apply Z.eqb_neq in En. apply mem_read_upd.
      destruct Hwhich as [W|W]; [left; assumption|right].
      rewrite W. apply Hio. auto. }
    destruct (snd (Alloc.allocateMemory e (fbs (cam st) i) (fSize (cam st) i)))
      as [p|] eqn:Ea.
    + apply allocate_nonnull in Ea.
      destruct (m p) eqn:Hfresh; [discriminate|].
      destruct (Z.of_nat (Datatypes.length fill) =? fSize (cam st) i) eqn:Hlen;
        [|discriminate].
      apply Z.eqb_eq in Hlen.
      assert (Hpo : fbs (cam st) o <> p).
      { destruct Hmo as [[Ho _]|[_ (blk & Hb & _)]]; congruence. }
      open_step H Hpc; rewrite <- ?Ei, <- ?Eo.
      * assumption.
      * rewrite upd_other by (intros X; apply Ea; symmetry; exact X). assumption.
      * unfold slot_ok; cbn. right. rewrite !upd_same.
        split; [assumption|]. exists fill. split; [reflexivity|assumption].
      * unfold slot_ok; cbn.
        rewrite (upd_other _ (fbs (cam st))) by assumption.
        destruct Hmo as [Ho|[Ho1 Ho2]]; [left; assumption|right].
        split; [assumption|]. rewrite upd_other by assumption. assumption.
      * intros _.
        rewrite Eo in Hpo. destruct Hifb as [E|E]; rewrite E in *;
          [change (1 - 0) with 1 in Hpo | change (1 - 1) with 0 in Hpo];
          rewrite upd_same; rewrite upd_other by discriminate; congruence.
      * unfold latest in *; cbn. split; [apply Hpub|].
        rewrite mem_read_upd; [assumption|].
        destruct (mem_read_live _ _ _ _ Hmread) as [Z0|[blk Hb]];
          [left; assumption | right; congruence].
      * rewrite upd_other by assumption. assumption.
    + open_step H Hpc; rewrite <- ?Ei, <- ?Eo.
      * assumption.
      * unfold slot_ok; cbn. assumption.
      * unfold latest in *; cbn. split; [apply Hpub | assumption].
      * assumption.
  - (* C_copy *)
    destruct (other_slot _ Hifb) as [Hne Hoth].
    destruct (memcpy (heap (g st)) (fbs (cam st) (ifb (cam st)))
                (cam_b (cam st)) (cam_s (cam st))) as [m'|] eqn:Ecp.
    + destruct (memcpy_spec _ _ _ _ _ Ecp Hframe)
        as [[Hz ->]|[Hnz (blk & Hblk & Hle & ->)]].
      * open_step H Hpc.
        intros _. split; [rewrite Hz; unfold MAX_FSIZE; cbv; discriminate|].
        rewrite Hz. unfold mem_read; cbn.
        rewrite Hz in Hframe. destruct (cam_b (cam st)); [reflexivity|discriminate].
      * assert (Hpn : fbs (cam st) (ifb (cam st)) <> NULL) by congruence.
        assert (Hio : fbs (cam st) (1 - ifb (cam st)) <> fbs (cam st) (ifb (cam st))).
        { destruct Hifb as [E|E]; rewrite E in *;
            [change (1 - 0) with 1 | change (1 - 1) with 0];
            intros X; apply Hapart; auto. }
        assert (Hsrc : cam_b (cam st) <> []).
        { intros X. rewrite X in Hframe. apply Hnz. exact Hframe. }
        open_step H Hpc.
        -- rewrite upd_other by (intros X; apply Hpn; symmetry; exact X). assumption.
        -- unfold slot_ok in *; cbn. right. split; [assumption|].
           rewrite upd_same. eexists. split; [reflexivity|].
           destruct Hthis as [[Hn _]|[_ (blk' & Hb' & Hl')]]; [contradiction|].
           rewrite Hblk in Hb'. injection Hb' as <-.
           rewrite length_app, length_skipn. lia.
        -- unfold slot_ok in *; cbn.
           destruct Hother as [Ho|[Ho1 Ho2]]; [left; assumption|right].
           split; [assumption|]. rewrite upd_other by assumption. assumption.
        -- intros _. split.
           ++ destruct Hthis as [[Hn _]|[_ (blk' & Hb' & Hl')]]; [contradiction|].
              rewrite Hblk in Hb'. injection Hb' as <-.
              specialize (Hfsize (ifb (cam st))). lia.
           ++ rewrite Hframe. apply mem_read_written. assumption.
        -- unfold latest in *; cbn. split; [apply Hpub|].
           rewrite mem_read_upd; [apply Hpub|].
           destruct Hwhich as [W|W]; [left; assumption|right].
           rewrite W. intros X. apply Hio. symmetry. exact X.
    + open_step H Hpc.
  - open_step H Hpc.
  - destruct (frameSync (g st)) eqn:Hfs; [|discriminate].
    open_step H Hpc.
    destruct (stream_holds (spc (strm st))); [discriminate | reflexivity].
  - open_step H Hpc.
    + rewrite (stream_holds_arg_ptr _ Hexcl). discriminate.
  - open_step H Hpc.
    + split; [rewrite Hframe; apply Zle_0_nat | apply Hcopied].
    + unfold latest; cbn. split; [assumption|]. rewrite Hwhich. apply Hcopied.
    + rewrite (stream_holds_buf _ Hexcl). discriminate.
    + intros E. apply stream_holds_w3 in Hexcl. contradiction.
  - destruct (other_slot _ Hifb) as [Hne Hoth].
    open_step H Hpc; rewrite next_ifb_flip by assumption.
    + destruct Hoth; auto.
    + unfold slot_ok in *; cbn; assumption.
    + replace (1 - (1 - ifb (cam st))) with (ifb (cam st)) by lia.
      unfold slot_ok in *; cbn; assumption.
    + replace (1 - (1 - ifb (cam st))) with (ifb (cam st)) by lia.
      right; assumption.
  - open_step H Hpc.
    rewrite Hexcl. reflexivity.
  - open_step H Hpc.
    intros E. apply first_gone in Hfirst. contradiction.
  - destruct (streamSuspended (g st)); open_step H Hpc.
    all: intros E; apply first_gone in Hfirst; contradiction.
Qed.



Ltac side_field Hpc Hfirst :=
  rewrite ?orb_false_r, ?orb_true_r, ?andb_false_r, ?andb_true_r; cbn [negb];
  first [ easy_field
        | match goal with H : _ |- _ => exact H end
        | let E := fresh "E" in
          intros E;
          let X := fresh "X" in
          destruct (Hfirst E) as (_ & X & _); discriminate X ].

Ltac open_side H Hpc Hfirst :=
  injection H as <-; constructor; cbn; rewrite ?Hpc; cbn;
  try side_field Hpc Hfirst.

Lemma queue_send_length c x :
  Z.of_nat (List.length (streamingClients x)) <= QUEUE_LENGTH ->
  Z.of_nat (List.length (streamingClients (xQueueSend c x))) <= QUEUE_LENGTH.
Proof.
  intros H. unfold xQueueSend.
  destruct (Z.of_nat (List.length (streamingClients x)) <? QUEUE_LENGTH) eqn:E;
    [|assumption].
  apply Z.ltb_lt in E. cbn. rewrite length_app. cbn. lia.
Qed.

Lemma queue_send_frame c x :
  camBuf (xQueueSend c x) = camBuf x /\ camSize (xQueueSend c x) = camSize x /\
  frameSync (xQueueSend c x) = frameSync x /\
  notifyValue (xQueueSend c x) = notifyValue x /\
  camSuspended (xQueueSend c x) = camSuspended x /\
  streamSuspended (xQueueSend c x) = streamSuspended x /\
  heap (xQueueSend c x) = heap x /\ device (xQueueSend c x) = device x.
Proof.
  unfold xQueueSend.
  destruct (Z.of_nat (List.length (streamingClients x)) <? QUEUE_LENGTH);
    cbn; repeat split; reflexivity.
Qed.

Lemma stream_step_inv hz st st' :
  Inv st -> stream_step hz st = Some st' -> Inv st'.
Proof.
  intros HI. inv_cases HI. unfold stream_step.
  destruct (spc (strm st)) eqn:Hpc; intros H;
  cbn [stream_holds has_buf has_arg_ptr orb andb negb] in *;
  rewrite ?orb_true_r, ?orb_false_r, ?andb_true_r, ?andb_false_r in *;
  cbn [negb] in *.
  - (* S_wait *)
    destruct (0 <? notifyValue (g st)) eqn:Hn; [|discriminate].
    open_side H Hpc Hfirst.
    intros E. destruct (Hfirst E) as (X & _). rewrite X in Hn. discriminate Hn.
  - (* S_top *)
    destruct (negb (uxQueueMessagesWaiting (g st) =? 0)) eqn:Hn;
    open_side H Hpc Hfirst.
    intros _ E. unfold uxQueueMessagesWaiting in Hn. rewrite E in Hn.
    discriminate Hn.
  - (* S_pop *)
    destruct (streamingClients (g st)) as [|c q] eqn:Hq;
    open_side H Hpc Hfirst.
    + exfalso. apply (Hpop eq_refl). reflexivity.
    + exfalso. apply (Hpop eq_refl). reflexivity.
    + cbn [List.length] in Hqueue. lia.
  - (* S_conn *)
    destruct (negb (connected (env st) (s_client (strm st))));
    open_side H Hpc Hfirst.
  - open_side H Hpc Hfirst.
  - destruct (frameSync (g st)) eqn:Hfs; [|discriminate].
    open_side H Hpc Hfirst.
    destruct (cam_holds (cpc (cam st))); [discriminate Hsem | reflexivity].
  - open_side H Hpc Hfirst.
  - open_side H Hpc Hfirst.
  - open_side H Hpc Hfirst.
  - open_side H Hpc Hfirst.
  - open_side H Hpc Hfirst.
  - destruct (mem_read (heap (g st)) (arg_ptr (strm st)) (arg_len (strm st)));
    open_side H Hpc Hfirst.
  - open_side H Hpc Hfirst.
  - pose proof (queue_send_length (s_client (strm st)) _ Hqueue) as Hq'.
    destruct (queue_send_frame (s_client (strm st)) (g st))
      as (E1 & E2 & E3 & E4 & E5 & E6 & E7 & E8).
    injection H as <-; constructor; cbn; unfold slot_ok, latest in *; cbn;
      rewrite ?Hpc, ?E1, ?E2, ?E3, ?E4, ?E5, ?E6, ?E7, ?E8; cbn;
      try side_field Hpc Hfirst.
  - open_side H Hpc Hfirst.
    rewrite Hexcl. reflexivity.
  - open_side H Hpc Hfirst.
  - open_side H Hpc Hfirst.
Qed.

Ltac keep_field :=
  first [ easy_field | match goal with H : _ |- _ => exact H end ].

Lemma accept_step_inv st st' :
  Inv st -> accept_step st = Some st' -> Inv st'.
Proof.
  intros HI. inv_cases HI. unfold accept_step.
  destruct (apc (acc st)) eqn:Hpc; intros H; try discriminate.
  - destruct (uxQueueSpacesAvailable (g st) =? 0);
      injection H as <-; constructor; cbn; keep_field.
  - injection H as <-; constructor; cbn; keep_field.
  - injection H as <-; constructor; cbn; keep_field.
  - pose proof (queue_send_length (a_client (acc st)) _ Hqueue) as Hq'.
    destruct (queue_send_frame (a_client (acc st)) (g st))
      as (E1 & E2 & E3 & E4 & E5 & E6 & E7 & E8).
    injection H as <-; constructor; cbn; unfold slot_ok, latest in *; cbn;
      rewrite ?E1, ?E2, ?E3, ?E4, ?E5, ?E6, ?E7, ?E8; cbn; try keep_field.
    intros Hp. specialize (Hpop Hp). unfold xQueueSend.
    destruct (Z.of_nat (List.length (streamingClients (g st))) <? QUEUE_LENGTH);
      [|assumption].
    cbn. destruct (streamingClients (g st)); [contradiction | discriminate].
  - destruct (camSuspended (g st));
      injection H as <-; constructor; cbn; keep_field.
  - destruct (streamSuspended (g st));
      injection H as <-; constructor; cbn; keep_field.
Qed.

Lemma step_inv hz a st st' :
  Inv st -> step hz a st = Some st' -> Inv st'.
Proof.
  intros HI. unfold step. destruct (device (g st)); try discriminate.
  destruct a.
  - destruct (camSuspended (g st)); [discriminate|]. apply cam_step_inv; assumption.
  - destruct (camSuspended (g st)); [discriminate|]. apply cam_step_inv; assumption.
  - destruct (camSuspended (g st)); [discriminate|]. apply cam_step_inv; assumption.
  - destruct (streamSuspended (g st)); [discriminate|]. apply stream_step_inv; assumption.
  - destruct (apc (acc st)); try discriminate. intros H.
    inv_cases HI. injection H as <-; constructor; cbn; keep_field.
  - apply accept_step_inv; assumption.
  - intros H. inv_cases HI. injection H as <-; constructor; cbn; keep_field.
  - intros H. inv_cases HI. injection H as <-; constructor; cbn; keep_field.
Qed.

Lemma init_inv : Inv init.
Proof.
  constructor; cbn; try easy_field.
  - lia.
  - intros i. unfold MAX_FSIZE. split; [lia|]. cbv. discriminate.
  - right. left. split; reflexivity.
  - left. split; reflexivity.
  - intros [H|H]; apply H; reflexivity.
  - unfold MAX_FSIZE. split; [lia|]. cbv. discriminate.
  - intros _. split; reflexivity.
  - left; reflexivity.
  - intros _. repeat split.
Qed.

Lemma exec_inv hz acts : forall st st',
  Inv st -> exec hz acts st = Some st' -> Inv st'.
Proof.
  induction acts as [|a rest IH]; intros st st' HI H; cbn in H.
  - injection H as <-. assumption.
  - destruct (step hz a st) as [st1|] eqn:E; [|discriminate].
    apply (IH st1); [|assumption]. apply (step_inv hz a st); assumption.
Qed.

Lemma reachable_inv hz st : reachable hz st -> Inv st.
Proof. intros [acts H]. apply (exec_inv hz acts init); [apply init_inv | assumption]. Qed.

(** ** The allocator *)

Lemma try_allocate_cases e n :
  let m := Alloc.malloc e n in
  let ps := Alloc.ps_malloc e n in
  Alloc.try_allocate e n = ([Alloc.PsMalloc n ps], ps) \/
  Alloc.try_allocate e n = ([], NULL) \/
  (m = NULL /\ Alloc.try_allocate e n = ([Alloc.Malloc n m; Alloc.PsMalloc n ps], ps)) \/
  Alloc.try_allocate e n = ([Alloc.Malloc n m], m).
Proof.
  unfold Alloc.try_allocate.
  destruct (n >? wrap32 (Alloc.getFreeHeap e * 2) / 3).
  - destruct (Alloc.psramFound e && (Alloc.getFreePsram e >? n)); auto.
  - destruct (Alloc.malloc e n =? NULL) eqn:Em.
    + apply Z.eqb_eq in Em.
      destruct (Alloc.psramFound e); destruct (Alloc.getFreePsram e >? n);
        cbn; auto.
    + cbn. auto.
Qed.

Lemma in_released_tried (aPtr : ptr) (tried : list Alloc.call) c q :
  In c ((if aPtr =? NULL then [] else [Alloc.Free aPtr]) ++ tried) ->
  Alloc.attempt_result c = Some q -> In c tried.
Proof.
  intros Hin Ha. apply in_app_or in Hin. destruct Hin as [Hin|Hin]; [|assumption].
  destruct (aPtr =? NULL); [contradiction|].
  destruct Hin as [<-|[]]. discriminate Ha.
Qed.

Lemma not_restart_released (aPtr : ptr) :
  ~ In Alloc.Restart (if aPtr =? NULL then [] else [Alloc.Free aPtr]).
Proof.
  destruct (aPtr =? NULL); intros H; [contradiction|].
  destruct H as [H|[]]. discriminate H.
Qed.

(** C7. When every allocation that [allocateMemory] attempts yields a null
    pointer (in particular when both [malloc] and [ps_malloc] do), it calls
    [ESP.restart] as its last call and returns nothing: no retry, no
    fallback.  When it returns, the pointer is not null, no restart was
    requested, and it is the pointer of the attempt that succeeded. *)
Theorem allocateMemory_restarts_or_returns_nonnull :
  forall (e : Alloc.sdk) (aPtr : ptr) (aSize : Z),
    let calls := fst (Alloc.allocateMemory e aPtr aSize) in
    let r := snd (Alloc.allocateMemory e aPtr aSize) in
    ((forall c q, In c calls -> Alloc.attempt_result c = Some q -> q = NULL) ->
     r = None /\
     exists before, calls = before ++ [Alloc.Restart] /\
                    ~ In Alloc.Restart before) /\
    (Alloc.malloc e aSize = NULL -> Alloc.ps_malloc e aSize = NULL ->
     r = None) /\
    (forall q, r = Some q -> q <> NULL /\ ~ In Alloc.Restart calls) /\
    (forall c q, In c calls -> Alloc.attempt_result c = Some q -> q <> NULL ->
                 r = Some q).
Proof.
  intros e aPtr aSize. unfold Alloc.allocateMemory.
  pose proof (not_restart_released aPtr) as Hrel.
  pose proof (in_released_tried aPtr) as Htr.
  remember (if aPtr =? NULL then [] else [Alloc.Free aPtr]) as released.
  destruct (try_allocate_cases e aSize) as [E|[E|[[Hm E]|E]]]; rewrite E; clear E.
  - (* PSRAM only *)
    destruct (Alloc.ps_malloc e aSize =? NULL) eqn:Ep; cbn [fst snd].
    + apply Z.eqb_eq in Ep. split; [|split; [|split]].
      * intros _. split; [reflexivity|].
        exists (released ++ [Alloc.PsMalloc aSize (Alloc.ps_malloc e aSize)]).
        split; [rewrite <- app_assoc; reflexivity|].
        intros F. apply in_app_or in F. destruct F as [F|[F|[]]];
          [exact (Hrel F) | discriminate F].
      * reflexivity.
      * intros q Hq. discriminate Hq.
      * intros c q Hin Ha Hn. pose proof (Htr _ c q Hin Ha) as Hin'. cbn in Hin'.
        repeat (destruct Hin' as [<-|Hin']; [cbn in Ha; congruence|]).
        contradiction.
    + apply Z.eqb_neq in Ep. split; [|split; [|split]].
      * intros Hall. exfalso. apply Ep.
        apply (Hall (Alloc.PsMalloc aSize (Alloc.ps_malloc e aSize)));
          [apply in_or_app; right; left; reflexivity | reflexivity].
      * intros _ X. contradiction.
      * intros q Hq. injection Hq as <-. split; [assumption|].
        intros F. apply in_app_or in F. destruct F as [F|[F|[]]];
          [exact (Hrel F) | discriminate F].
      * intros c q Hin Ha Hn. pose proof (Htr _ c q Hin Ha) as Hin'. cbn in Hin'.
        repeat (destruct Hin' as [<-|Hin']; [cbn in Ha; congruence|]).
        contradiction.
  - (* nothing attempted *)
    cbn [fst snd]. change (NULL =? NULL) with true. cbn [fst snd].
    split; [|split; [|split]].
    + intros _. split; [reflexivity|]. exists released.
      split; [reflexivity | assumption].
    + reflexivity.
    + intros q Hq. discriminate Hq.
    + intros c q Hin Ha Hn. pose proof (Htr _ c q Hin Ha) as Hin'. cbn in Hin'.
        repeat (destruct Hin' as [<-|Hin']; [cbn in Ha; congruence|]).
        contradiction.
  - (* heap failed, then PSRAM *)
    destruct (Alloc.ps_malloc e aSize =? NULL) eqn:Ep; cbn [fst snd].
    + apply Z.eqb_eq in Ep. split; [|split; [|split]].
      * intros _. split; [reflexivity|].
        exists (released ++ [Alloc.Malloc aSize (Alloc.malloc e aSize);
                             Alloc.PsMalloc aSize (Alloc.ps_malloc e aSize)]).
        split; [rewrite <- app_assoc; reflexivity|].
        intros F. apply in_app_or in F. destruct F as [F|[F|[F|[]]]];
          [exact (Hrel F) | discriminate F | discriminate F].
      * reflexivity.
      * intros q Hq. discriminate Hq.
      * intros c q Hin Ha Hn. pose proof (Htr _ c q Hin Ha) as Hin'. cbn in Hin'.
        repeat (destruct Hin' as [<-|Hin']; [cbn in Ha; congruence|]).
        contradiction.
    + apply Z.eqb_neq in Ep. split; [|split; [|split]].
      * intros Hall. exfalso. apply Ep.
        apply (Hall (Alloc.PsMalloc aSize (Alloc.ps_malloc e aSize)));
          [apply in_or_app; right; right; left; reflexivity | reflexivity].
      * intros _ X. contradiction.
      * intros q Hq. injection Hq as <-. split; [assumption|].
        intros F. apply in_app_or in F. destruct F as [F|[F|[F|[]]]];
          [exact (Hrel F) | discriminate F | discriminate F].
      * intros c q Hin Ha Hn. pose proof (Htr _ c q Hin Ha) as Hin'. cbn in Hin'.
        repeat (destruct Hin' as [<-|Hin']; [cbn in Ha; congruence|]).
        contradiction.
  - (* heap only *)
    destruct (Alloc.malloc e aSize =? NULL) eqn:Em; cbn [fst snd].
    + apply Z.eqb_eq in Em. split; [|split; [|split]].
      * intros _. split; [reflexivity|].
        exists (released ++ [Alloc.Malloc aSize (Alloc.malloc e aSize)]).
        split; [rewrite <- app_assoc; reflexivity|].
        intros F. apply in_app_or in F. destruct F as [F|[F|[]]];
          [exact (Hrel F) | discriminate F].
      * reflexivity.
      * intros q Hq. discriminate Hq.
      * intros c q Hin Ha Hn. pose proof (Htr _ c q Hin Ha) as Hin'. cbn in Hin'.
        repeat (destruct Hin' as [<-|Hin']; [cbn in Ha; congruence|]).
        contradiction.
    + apply Z.eqb_neq in Em. split; [|split; [|split]].
      * intros Hall. exfalso. apply Em.
        apply (Hall (Alloc.Malloc aSize (Alloc.malloc e aSize)));
          [apply in_or_app; right; left; reflexivity | reflexivity].
      * intros X. contradiction.
      * intros q Hq. injection Hq as <-. split; [assumption|].
        intros F. apply in_app_or in F. destruct F as [F|[F|[]]];
          [exact (Hrel F) | discriminate F].
      * intros c q Hin Ha Hn. pose proof (Htr _ c q Hin Ha) as Hin'. cbn in Hin'.
        repeat (destruct Hin' as [<-|Hin']; [cbn in Ha; congruence|]).
        contradiction.
Qed.

(** ** Slot capacities *)

Lemma grow_size_small c s :
  0 <= s < 2 ^ 30 ->
  c <= grow_size c s /\
  (grow_size c s <> c ->
   c < s /\ grow_size c s = 4 * s / 3 /\ s <= grow_size c s /\
   (8 <= s -> 125 * s <= 100 * grow_size c s)).
Proof.
  intros Hs. unfold grow_size. destruct (s >? c) eqn:E.
  - apply Z.gtb_lt in E. unfold wrap32.
    rewrite Z.mod_small by lia.
    replace (s * 4) with (4 * s) by lia.
    assert (H3 : 3 * (4 * s / 3) <= 4 * s < 3 * (4 * s / 3) + 3).
    { pose proof (Z.mul_div_le (4 * s) 3 ltac:(lia)).
      pose proof (Z.mul_succ_div_gt (4 * s) 3 ltac:(lia)). lia. }
    split; [lia|]. intros _. repeat split; lia.
  - split; [lia|]. intros H. contradiction H. reflexivity.
Qed.

Lemma capture_size_cap k s i :
  cap_of i (capture_size k s) = cap_of i k \/
  cap_of i (capture_size k s) = grow_size (cap_of i k) s.
Proof.
  unfold capture_size, cap_of.
  destruct (turn k =? 0); destruct (i =? 0); cbn; auto.
Qed.

Lemma capture_size_small k s i :
  0 <= s < 2 ^ 30 ->
  cap_of i k <= cap_of i (capture_size k s) /\
  (cap_of i (capture_size k s) <> cap_of i k ->
   cap_of i k < s /\ cap_of i (capture_size k s) = 4 * s / 3 /\
   s <= cap_of i (capture_size k s) /\
   (8 <= s -> 125 * s <= 100 * cap_of i (capture_size k s))).
Proof.
  intros Hs. destruct (capture_size_cap k s i) as [E|E]; rewrite E.
  - split; [lia|]. intros H. contradiction H. reflexivity.
  - apply grow_size_small. assumption.
Qed.

(** C4, as amended.  Over any sequence of frame sizes below 2^30 (so that
    [s * 4] does not wrap on 32 bits) the capacity of each slot never
    decreases; a pass changes it only for a frame larger than it, and then
    to [4 * s / 3] rounded down, which is at least the frame and, from 8
    bytes on, at least 125% of it. *)
Theorem slot_capacity_monotone :
  forall (k : slots) (ss : list Z) (i : Z),
    Forall (fun s => 0 <= s < 2 ^ 30) ss ->
    cap_of i k <= cap_of i (capture_sizes k ss) /\
    forall done s rest, ss = done ++ s :: rest ->
      let before := capture_sizes k done in
      let after := capture_size before s in
      cap_of i before <= cap_of i after /\
      (cap_of i after <> cap_of i before ->
       cap_of i before < s /\ cap_of i after = 4 * s / 3 /\
       s <= cap_of i after /\ (8 <= s -> 125 * s <= 100 * cap_of i after)).
Proof.
  intros k ss i Hss. split.
  - revert k. induction Hss as [|s ss Hs _ IH]; intros k; cbn.
    + lia.
    + destruct (capture_size_small k s i Hs) as [Hle _].
      specialize (IH (capture_size k s)). unfold capture_sizes in IH. lia.
  - intros done s rest E. subst ss.
    apply Forall_app in Hss. destruct Hss as [_ Hs].
    apply Forall_inv in Hs. apply capture_size_small. assumption.
Qed.

Lemma slot_capacity_monotone_witness :
  Forall (fun s => 0 <= s < 2 ^ 30) [30000; 20000; 41000] /\
  cap_of 0 slots0 <= cap_of 0 (capture_sizes slots0 [30000; 20000; 41000]) /\
  cap_of 0 (capture_sizes slots0 [30000; 20000; 41000]) = 54666.
Proof.
  split; [|split].
  - repeat constructor; lia.
  - apply (slot_capacity_monotone slots0 [30000; 20000; 41000] 0).
    repeat constructor; lia.
  - reflexivity.
Defined.

(** C4 as stated fails twice: a frame of 2^30 bytes makes [s * 4] wrap to 0
    and the slot's capacity drops from 133 to 0, and a 5-byte frame gets a
    capacity of 6, below 125% of it. *)
Lemma capacity_never_shrinks_fails :
  cap_of 0 (capture_sizes slots0 [100; 0; 2 ^ 30])
  < cap_of 0 (capture_sizes slots0 [100; 0]) /\
  100 * cap_of 0 (capture_sizes slots0 [5]) < 125 * 5 /\
  ~ capacity_never_shrinks.
Proof.
  split; [reflexivity|]. split; [reflexivity|].
  intros H. specialize (H [100; 0] (2 ^ 30) 0).
  assert (F : Forall (fun x => 0 <= x < 2 ^ 32) ([100; 0] ++ [2 ^ 30])).
  { repeat constructor; cbv; congruence. }
  destruct (H F) as [Hle _]. vm_compute in Hle. apply Hle. reflexivity.
Qed.

(** ** The /config endpoint *)

Section ConfigFacts.
Import Config.
Import ConfigSpec.

Variable toInt : string -> Z.
Variable sensor : Type.
Variable drive : setter -> sensor -> Z -> sensor * Z.

Lemma fold_forward_invoked q ps : forall g0,
  invoked (fold_left (forward toInt drive q) ps g0)
  = invoked g0 ++ forwarded toInt q ps.
Proof.
  induction ps as [|p ps IH]; intros g0; cbn.
  - rewrite app_nil_r. reflexivity.
  - rewrite IH. unfold forwarded, forward. cbn [flat_map].
    destruct (negb (getParameterFromUrl toInt q (fst p) =? NOT_PROVIDED)).
    + destruct (drive (snd p) (cam_sensor g0) (getParameterFromUrl toInt q (fst p))).
      cbn. rewrite <- app_assoc. reflexivity.
    + reflexivity.
Qed.

Lemma setter_calls_forwarded q s0 :
  setter_calls toInt drive q s0 = forwarded toInt q config_params.
Proof.
  unfold setter_calls, handleConfig.
  destruct (negb (getParameterFromUrl toInt q "reset" =? NOT_PROVIDED));
    cbn [fst]; apply fold_forward_invoked.
Qed.

Lemma in_forwarded q ps st v :
  In (st, v) (forwarded toInt q ps) <->
  exists name, In (name, st) ps /\ v = getParameterFromUrl toInt q name /\
               v <> NOT_PROVIDED.
Proof.
  unfold forwarded. rewrite in_flat_map. split.
  - intros [[name st'] [Hin H]]. cbn [fst snd] in H.
    destruct (getParameterFromUrl toInt q name =? NOT_PROVIDED) eqn:E;
      cbn in H; [contradiction|].
    destruct H as [H|[]]. injection H as <- <-.
    exists name. apply Z.eqb_neq in E. auto.
  - intros [name (Hin & -> & Hne)]. exists (name, st). split; [assumption|].
    cbn [fst snd]. apply Z.eqb_neq in Hne. rewrite Hne. cbn. auto.
Qed.

Lemma server_arg_absent q name :
  ~ In name (map fst q) -> server_arg q name = EmptyString.
Proof.
  induction q as [|[k v] q IH]; cbn; intros H; [reflexivity|].
  destruct (String.eqb k name) eqn:E.
  - apply String.eqb_eq in E. exfalso. apply H. left. assumption.
  - apply IH. intros X. apply H. right. assumption.
Qed.

Lemma getParameter_absent q name :
  server_arg q name = EmptyString ->
  getParameterFromUrl toInt q name = NOT_PROVIDED.
Proof. unfold getParameterFromUrl. intros ->. reflexivity. Qed.

Lemma getParameter_present q name :
  server_arg q name <> EmptyString ->
  getParameterFromUrl toInt q name = toInt (server_arg q name).
Proof.
  unfold getParameterFromUrl. intros H.
  destruct (server_arg q name); [contradiction H; reflexivity | reflexivity].
Qed.

End ConfigFacts.

Lemma config_setters_nodup : NoDup (map snd Config.config_params).
Proof.
  cbn. repeat (constructor; [cbn; intros H;
    repeat (destruct H as [H|H]; [discriminate H|]); exact H|]).
  constructor.
Qed.

Lemma assoc_unique (A B : Type) (l : list (A * B)) a1 a2 b :
  NoDup (map snd l) -> In (a1, b) l -> In (a2, b) l -> a1 = a2.
Proof.
  induction l as [|[a b'] l IH]; cbn; intros Hnd H1 H2; [contradiction|].
  inversion Hnd as [|x xs Hnot Hnd']; subst.
  destruct H1 as [H1|H1]; destruct H2 as [H2|H2].
  - congruence.
  - injection H1 as -> ->. exfalso. apply Hnot.
    apply (in_map snd) in H2. exact H2.
  - injection H2 as -> ->. exfalso. apply Hnot.
    apply (in_map snd) in H1. exact H1.
  - apply IH; assumption.
Qed.

(** C8. For a GET /config request and a recognised parameter: when the
    parameter is not in the query, or its argument is the empty string, its
    setter is not called; a setter that is called belongs to a parameter the
    query supplies and gets [toInt] of the supplied text as it is; and any
    supplied value other than the sentinel is forwarded, whatever its
    range. *)
Theorem config_setter_only_when_present :
  forall (toInt : string -> Z) (sensor : Type)
         (drive : Config.setter -> sensor -> Z -> sensor * Z)
         (q : Config.query) (s0 : sensor) (name : string) (st : Config.setter),
    In (name, st) Config.config_params ->
    (~ In name (map fst q) ->
     forall v, ~ In (st, v) (Config.setter_calls toInt drive q s0)) /\
    (Config.server_arg q name = EmptyString ->
     forall v, ~ In (st, v) (Config.setter_calls toInt drive q s0)) /\
    (forall v, In (st, v) (Config.setter_calls toInt drive q s0) ->
               Config.server_arg q name <> EmptyString /\
               In name (map fst q) /\
               v = toInt (Config.server_arg q name)) /\
    (Config.server_arg q name <> EmptyString ->
     toInt (Config.server_arg q name) <> Config.NOT_PROVIDED ->
     In (st, toInt (Config.server_arg q name))
        (Config.setter_calls toInt drive q s0)).
Proof.
  intros toInt sensor drive q s0 name st Hin.
  rewrite setter_calls_forwarded.
  assert (Hcalled : forall v,
    In (st, v) (ConfigSpec.forwarded toInt q Config.config_params) ->
    v = Config.getParameterFromUrl toInt q name /\ v <> Config.NOT_PROVIDED).
  { intros v H. apply in_forwarded in H. destruct H as [name' (Hin' & Hv & Hne)].
    rewrite (assoc_unique _ _ _ name name' st config_setters_nodup Hin Hin').
    auto. }
  assert (Hempty : Config.server_arg q name = EmptyString ->
    forall v, ~ In (st, v) (ConfigSpec.forwarded toInt q Config.config_params)).
  { intros He v H. destruct (Hcalled v H) as [Hv Hne].
    rewrite (getParameter_absent toInt q name He) in Hv. contradiction. }
  split; [|split; [|split]].
  - intros Habs. apply Hempty. apply server_arg_absent. assumption.
  - exact Hempty.
  - intros v H.
    assert (Hne : Config.server_arg q name <> EmptyString).
    { intros He. exact (Hempty He v H). }
    split; [assumption|]. split.
    + destruct (in_dec string_dec name (map fst q)) as [Y|N]; [assumption|].
      exfalso. apply Hne. apply server_arg_absent. assumption.
    + destruct (Hcalled v H) as [Hv _].
      rewrite (getParameter_present toInt q name Hne) in Hv. assumption.
  - intros Hne Hval. apply in_forwarded. exists name.
    rewrite (getParameter_present toInt q name Hne). auto.
Qed.

Lemma config_setter_only_when_present_witness :
  In ("quality"%string, Config.set_quality) Config.config_params /\
  (forall v, ~ In (Config.set_quality, v)
     (Config.setter_calls Config.atol ConfigSpec.idle_driver
        [("contrast", "2")]%string tt)) /\
  In (Config.set_quality, 700)
     (Config.setter_calls Config.atol ConfigSpec.idle_driver
        [("quality", "700")]%string tt).
Proof.
  assert (Hin : In ("quality"%string, Config.set_quality) Config.config_params)
    by (cbn; tauto).
  split; [exact Hin|]. split.
  - apply (config_setter_only_when_present Config.atol unit
             ConfigSpec.idle_driver [("contrast", "2")]%string tt
             "quality"%string Config.set_quality Hin).
    reflexivity.
  - apply (config_setter_only_when_present Config.atol unit
             ConfigSpec.idle_driver [("quality", "700")]%string tt
             "quality"%string Config.set_quality Hin).
    + cbn. discriminate.
    + cbn. discriminate.
Defined.

(** C9, as amended.  For a recognised parameter that the query supplies with
    a non-empty text, the setter is called exactly when [toInt] of the text
    is not the sentinel -999999, and then with that value; a supplied text
    that converts to -999999 is treated like an absent parameter. *)
Theorem config_sentinel_decides :
  forall (toInt : string -> Z) (sensor : Type)
         (drive : Config.setter -> sensor -> Z -> sensor * Z)
         (q : Config.query) (s0 : sensor) (name : string) (st : Config.setter),
    In (name, st) Config.config_params ->
    Config.server_arg q name <> EmptyString ->
    ((exists v, In (st, v) (Config.setter_calls toInt drive q s0)) <->
     toInt (Config.server_arg q name) <> Config.NOT_PROVIDED) /\
    (forall v, In (st, v) (Config.setter_calls toInt drive q s0) ->
               v = toInt (Config.server_arg q name)).
Proof.
  intros toInt sensor drive q s0 name st Hin Hne.
  rewrite setter_calls_forwarded.
  assert (Hcalled : forall v,
    In (st, v) (ConfigSpec.forwarded toInt q Config.config_params) ->
    v = toInt (Config.server_arg q name) /\ v <> Config.NOT_PROVIDED).
  { intros v H. apply in_forwarded in H. destruct H as [name' (Hin' & Hv & Hn)].
    rewrite <- (assoc_unique _ _ _ name name' st config_setters_nodup Hin Hin')
      in Hv.
    rewrite (getParameter_present toInt q name Hne) in Hv. auto. }
  split; [split|].
  - intros [v H]. destruct (Hcalled v H) as [-> Hn]. assumption.
  - intros Hval. exists (toInt (Config.server_arg q name)).
    apply in_forwarded. exists name.
    rewrite (getParameter_present toInt q name Hne). auto.
  - intros v H. apply Hcalled. assumption.
Qed.

Lemma config_sentinel_decides_witness :
  In ("brightness"%string, Config.set_brightness) Config.config_params /\
  Config.server_arg [("brightness", "-2")]%string "brightness"
  <> EmptyString /\
  forall v, In (Config.set_brightness, v)
              (Config.setter_calls Config.atol ConfigSpec.idle_driver
                 [("brightness", "-2")]%string tt) -> v = -2.
Proof.
  assert (Hin : In ("brightness"%string, Config.set_brightness)
                   Config.config_params) by (cbn; tauto).
  assert (Hne : Config.server_arg [("brightness", "-2")]%string "brightness"
                <> EmptyString) by (cbn; discriminate).
  split; [exact Hin|]. split; [exact Hne|].
  apply (config_sentinel_decides Config.atol unit ConfigSpec.idle_driver
           [("brightness", "-2")]%string tt "brightness"%string
           Config.set_brightness Hin Hne).
Defined.

(** C9 as stated fails: the query quality=10 calls [set_quality], the query
    quality=-999999 supplies the parameter just as explicitly and calls
    nothing. *)
Lemma sentinel_is_no_value_fails :
  Config.setter_calls Config.atol ConfigSpec.idle_driver
    [("quality", "10")]%string tt = [(Config.set_quality, 10)] /\
  Config.setter_calls Config.atol ConfigSpec.idle_driver
    [("quality", "-999999")]%string tt = [] /\
  ~ ConfigSpec.sentinel_is_no_value.
Proof.
  split; [reflexivity|]. split; [reflexivity|].
  intros H.
  specialize (H "quality"%string Config.set_quality "10"%string
                "-999999"%string).
  destruct H as [H _]; try (cbn; tauto); try discriminate.
  destruct H as [v Hv].
  - exists 10. cbn. left. reflexivity.
  - cbn in Hv. exact Hv.
Qed.

(** C10. A GET /config request whose query has no reset parameter ends with
    the response 200 "OK", whatever setters were called and whatever any
    driver function returns or does to the sensor: the handler keeps none of
    the results. *)
Theorem config_replies_ok_without_reset :
  forall (toInt : string -> Z) (sensor : Type)
         (drive : Config.setter -> sensor -> Z -> sensor * Z)
         (q : Config.query) (s0 : sensor),
    ~ In "reset"%string (map fst q) ->
    snd (Config.handleConfig toInt drive q s0)
    = Config.Send 200 "text / plain" "OK".
Proof.
  intros toInt sensor drive q s0 H. unfold Config.handleConfig.
  rewrite (getParameter_absent toInt q "reset"
             (server_arg_absent q "reset" H)).
  reflexivity.
Qed.

Lemma config_replies_ok_without_reset_witness :
  ~ In "reset"%string (map fst [("quality", "12"); ("vflip", "1")]%string) /\
  snd (Config.handleConfig Config.atol (fun _ (s : unit) _ => (s, -1))
         [("quality", "12"); ("vflip", "1")]%string tt)
  = Config.Send 200 "text / plain" "OK".
Proof.
  assert (H : ~ In "reset"%string
                (map fst [("quality", "12"); ("vflip", "1")]%string)).
  { cbn. intros [X|[X|[]]]; discriminate X. }
  split; [exact H|].
  apply (config_replies_ok_without_reset Config.atol unit
           (fun _ (s : unit) _ => (s, -1))
           [("quality", "12"); ("vflip", "1")]%string tt H).
Defined.

(** ** Suspended tasks rest at their resume points *)

Lemma cam_step_suspended a st st' :
  cam_step a st = Some st' ->
  streamSuspended (g st') = streamSuspended (g st) /\
  spc (strm st') = spc (strm st) /\
  (camSuspended (g st') = camSuspended (g st) \/ cpc (cam st') = C_run).
Proof.
  unfold cam_step.
  destruct (cpc (cam st)); destruct a; try discriminate; intros H.
  all: repeat match type of H with
       | (if ?c then _ else _) = _ => destruct c eqn:?
       | match ?c with _ => _ end = _ => destruct c eqn:?
       end; try discriminate H; injection H as <-; cbn; auto.
Qed.

Lemma stream_step_suspended hz st st' :
  stream_step hz st = Some st' ->
  camSuspended (g st') = camSuspended (g st) /\
  cpc (cam st') = cpc (cam st) /\
  (streamSuspended (g st') = streamSuspended (g st) \/
   spc (strm st') = S_sleep).
Proof.
  unfold stream_step.
  destruct (spc (strm st)); intros H.
  all: repeat match type of H with
       | (if ?c then _ else _) = _ => destruct c eqn:?
       | match ?c with _ => _ end = _ => destruct c eqn:?
       end; try discriminate H; injection H as <-; cbn; auto.
  destruct (queue_send_frame (s_client (strm st)) (g st))
    as (_ & _ & _ & _ & E5 & E6 & _). rewrite E5, E6. auto.
Qed.

Lemma accept_step_suspended st st' :
  accept_step st = Some st' ->
  cpc (cam st') = cpc (cam st) /\ spc (strm st') = spc (strm st) /\
  (streamSuspended (g st') = streamSuspended (g st) \/
   streamSuspended (g st') = false) /\
  (camSuspended (g st') = camSuspended (g st) \/
   camSuspended (g st') = false).
Proof.
  unfold accept_step.
  destruct (apc (acc st)); intros H; try discriminate H.
  all: repeat match type of H with
       | (if ?c then _ else _) = _ => destruct c eqn:?
       end; try discriminate H; injection H as <-; cbn; auto.
  destruct (queue_send_frame (a_client (acc st)) (g st))
    as (_ & _ & _ & _ & E5 & E6 & _). rewrite E5, E6. auto.
Qed.

Lemma step_parked hz a st st' :
  parked st -> step hz a st = Some st' -> parked st'.
Proof.
  unfold parked, step. intros [Hs Hc]. destruct (device (g st)); try discriminate.
  destruct a.
  1-3: destruct (camSuspended (g st)) eqn:E; [discriminate|]; intros H;
       apply cam_step_suspended in H; destruct H as (E1 & E2 & [E3|E3]);
       rewrite E1, E2, ?E3; split; auto; intros X; congruence.
  - destruct (streamSuspended (g st)) eqn:E; [discriminate|]. intros H.
    apply stream_step_suspended in H. destruct H as (E1 & E2 & [E3|E3]);
      rewrite E1, E2, ?E3; split; auto; intros X; congruence.
  - destruct (apc (acc st)); try discriminate. intros H. injection H as <-.
    cbn. auto.
  - intros H. apply accept_step_suspended in H.
    destruct H as (E1 & E2 & E3 & E4). rewrite E1, E2. split; intros X.
    + destruct E3 as [E3|E3]; rewrite E3 in X; [auto | discriminate].
    + destruct E4 as [E4|E4]; rewrite E4 in X; [auto | discriminate].
  - intros H. injection H as <-. cbn. auto.
  - intros H. injection H as <-. cbn. auto.
Qed.

Lemma reachable_parked hz st : reachable hz st -> parked st.
Proof.
  intros [acts H].
  assert (G : forall st0, parked st0 -> exec hz acts st0 = Some st -> parked st).
  { clear H. induction acts as [|a rest IH]; intros st0 P H; cbn in H.
    - injection H as <-. assumption.
    - destruct (step hz a st0) as [st1|] eqn:E; [|discriminate].
      apply (IH st1); [|assumption]. apply (step_parked hz a st0); assumption. }
  apply (G init); [|assumption]. split; cbn; intros X; discriminate X.
Qed.

(** ** The published pair while a client is served *)

Lemma as_int_small x : 0 <= x <= MAX_FSIZE -> as_int x = x.
Proof.
  unfold MAX_FSIZE. intros H.
  assert (B : (2 ^ 32 - 1) / 3 < 2 ^ 31) by reflexivity.
  unfold as_int, wrap32. rewrite Z.mod_small by lia.
  destruct (x <? 2 ^ 31) eqn:E; [reflexivity|].
  apply Z.ltb_ge in E. lia.
Qed.

Ltac split_step H :=
  repeat match type of H with
         | (if ?c then _ else _) = _ => destruct c eqn:?
         | match ?c with _ => _ end = _ => destruct c eqn:?
         end; try discriminate H; injection H as <-.

Lemma cam_step_frame a st st' :
  cam_step a st = Some st' ->
  cam_holds (cpc (cam st)) = false -> frameSync (g st) = false ->
  published (env st') = published (env st) /\
  camBuf (g st') = camBuf (g st) /\ camSize (g st') = camSize (g st) /\
  wire (env st') = wire (env st) /\
  cam_holds (cpc (cam st')) = false.
Proof.
  unfold cam_step. intros H Hh Hf.
  destruct (cpc (cam st)) eqn:Hpc; cbn in Hh; try discriminate Hh;
    destruct a; try discriminate; split_step H;
    cbn; rewrite ?Hpc; repeat split; auto; congruence.
Qed.

Lemma stream_step_frame hz st st' :
  stream_step hz st = Some st' ->
  published (env st') = published (env st) /\
  camBuf (g st') = camBuf (g st) /\ camSize (g st') = camSize (g st) /\
  cpc (cam st') = cpc (cam st).
Proof.
  unfold stream_step. intros H.
  destruct (spc (strm st)); split_step H; cbn; auto.
  destruct (queue_send_frame (s_client (strm st)) (g st)) as (E1 & E2 & _).
  auto.
Qed.

Lemma accept_step_frame st st' :
  accept_step st = Some st' ->
  published (env st') = published (env st) /\
  camBuf (g st') = camBuf (g st) /\ camSize (g st') = camSize (g st) /\
  cpc (cam st') = cpc (cam st).
Proof.
  unfold accept_step. intros H.
  destruct (apc (acc st)); split_step H; cbn; auto.
  destruct (queue_send_frame (a_client (acc st)) (g st)) as (E1 & E2 & _).
  auto.
Qed.

Lemma step_frame hz a st st' :
  step hz a st = Some st' ->
  cam_holds (cpc (cam st)) = false -> frameSync (g st) = false ->
  published (env st') = published (env st) /\
  camBuf (g st') = camBuf (g st) /\ camSize (g st') = camSize (g st) /\
  cam_holds (cpc (cam st')) = false.
Proof.
  unfold step. intros H Hh Hf.
  destruct (device (g st)); try discriminate. destruct a.
  1-3: destruct (camSuspended (g st)); [discriminate|];
       destruct (cam_step_frame _ _ _ H Hh Hf) as (E1 & E2 & E3 & _ & E4); auto.
  - destruct (streamSuspended (g st)); [discriminate|].
    destruct (stream_step_frame _ _ _ H) as (E1 & E2 & E3 & E4).
    rewrite E4. auto.
  - destruct (apc (acc st)); try discriminate. injection H as <-. cbn. auto.
  - destruct (accept_step_frame _ _ H) as (E1 & E2 & E3 & E4).
    rewrite E4. auto.
  - injection H as <-. cbn. auto.
  - injection H as <-. cbn. auto.
Qed.

Lemma holds_not_setsize pc : cam_holds pc = false -> pc <> C_setsize.
Proof. destruct pc; simpl; congruence. Qed.

Lemma holding_excludes st :
  Inv st -> stream_holds (spc (strm st)) = true ->
  cam_holds (cpc (cam st)) = false /\ frameSync (g st) = false.
Proof.
  intros HI Hs. pose proof (inv_excl HI) as He. pose proof (inv_sem HI) as Hm.
  rewrite Hs in He, Hm. rewrite andb_true_r in He. rewrite orb_true_r in Hm.
  auto.
Qed.

(** ** Network writes and the semaphore *)

Lemma cam_step_io a st st' :
  cam_step a st = Some st' ->
  wire (env st') = wire (env st) /\
  streamingClients (g st') = streamingClients (g st) /\
  (cam_holds (cpc (cam st)) = true ->
   heap (g st') = heap (g st) /\ a = CamStep).
Proof.
  unfold cam_step. intros H.
  destruct (cpc (cam st)) eqn:Hpc; destruct a; try discriminate; split_step H;
    cbn; repeat split; auto; discriminate.
Qed.

Lemma stream_step_io hz st st' :
  stream_step hz st = Some st' ->
  wire (env st') = wire (env st) \/
  (stream_holds (spc (strm st)) = true /\
   exists k, wire (env st') = (s_client (strm st), k) :: wire (env st)).
Proof.
  unfold stream_step. intros H.
  destruct (spc (strm st)) eqn:Hpc; split_step H; cbn; auto;
    right; split; eauto.
Qed.

Lemma accept_step_io st st' :
  accept_step st = Some st' ->
  wire (env st') = wire (env st) \/
  ((apc (acc st) = A_w1 \/ apc (acc st) = A_w2) /\
   exists k, wire (env st') = (a_client (acc st), k) :: wire (env st)).
Proof.
  unfold accept_step. intros H.
  destruct (apc (acc st)) eqn:Hpc; split_step H; cbn; auto;
    right; split; eauto.
Qed.

(** C2, as amended.  [camCB] never writes to a client, and between its
    take and give of [frameSync] it only assigns [camBuf], [camSize] and
    [ifb]: no allocation, no copy, no queue operation.  Every write to a
    client is made either by [handleJPGSstream], which never takes
    [frameSync], or by [streamCB], and [streamCB] makes each of its writes
    while it holds [frameSync]. *)
Theorem writes_and_frameSync :
  forall (hz : Z) (st st' : state) (a : action),
    reachable hz st -> step hz a st = Some st' ->
    (by_cam a ->
     wire (env st') = wire (env st) /\
     streamingClients (g st') = streamingClients (g st) /\
     (cam_holds (cpc (cam st)) = true ->
      heap (g st') = heap (g st) /\ a = CamStep)) /\
    (wire (env st') <> wire (env st) ->
     (a = StreamStep /\ stream_holds (spc (strm st)) = true /\
      frameSync (g st) = false /\
      exists k, wire (env st') = (s_client (strm st), k) :: wire (env st)) \/
     (a = AcceptStep /\ (apc (acc st) = A_w1 \/ apc (acc st) = A_w2) /\
      exists k, wire (env st') = (a_client (acc st), k) :: wire (env st))).
Proof.
  intros hz st st' a Hr Hstep.
  pose proof (reachable_inv hz st Hr) as HI.
  unfold step in Hstep. destruct (device (g st)); try discriminate.
  destruct a; cbn [by_cam].
  1-3: destruct (camSuspended (g st)); [discriminate|];
       destruct (cam_step_io _ _ _ Hstep) as (E1 & E2 & E3);
       (split; [intros _; auto | intros X; contradiction]).
  - destruct (streamSuspended (g st)); [discriminate|].
    split; [intros []|]. intros X.
    destruct (stream_step_io _ _ _ Hstep) as [E|[Hh Hk]]; [contradiction|].
    left. split; [reflexivity|]. split; [assumption|]. split; [|assumption].
    apply (holding_excludes st HI Hh).
  - split; [intros []|]. destruct (apc (acc st)); try discriminate.
    injection Hstep as <-. cbn. intros X. contradiction X. reflexivity.
  - split; [intros []|]. intros X.
    destruct (accept_step_io _ _ Hstep) as [E|[Hh Hk]]; [contradiction|].
    right. auto.
  - split; [intros []|]. injection Hstep as <-. cbn. intros X.
    contradiction X. reflexivity.
  - split; [intros []|]. injection Hstep as <-. cbn. intros X.
    contradiction X. reflexivity.
Qed.

Lemma writes_and_frameSync_witness :
  reachable 1000 (Sample.run Sample2.to_header) /\
  step 1000 StreamStep (Sample.run Sample2.to_header)
  = Some (Sample.run (Sample2.to_header ++ [StreamStep])) /\
  stream_holds (spc (strm (Sample.run Sample2.to_header))) = true /\
  frameSync (g (Sample.run Sample2.to_header)) = false.
Proof.
  assert (Hr : reachable 1000 (Sample.run Sample2.to_header)).
  { exists Sample2.to_header. vm_compute. reflexivity. }
  assert (Hs : step 1000 StreamStep (Sample.run Sample2.to_header)
               = Some (Sample.run (Sample2.to_header ++ [StreamStep])))
    by (vm_compute; reflexivity).
  split; [exact Hr|]. split; [exact Hs|].
  destruct (writes_and_frameSync 1000 _ _ StreamStep Hr Hs) as [_ Hw].
  destruct Hw as [(_ & Hh & Hf & _)|(Ha & _)].
  - vm_compute. discriminate.
  - split; assumption.
  - discriminate Ha.
Defined.

(** C2 as stated fails: after client 1 has registered and the first frame
    is published, [streamCB] takes [frameSync] and then writes the
    per-frame header to the client with the semaphore still taken. *)
Lemma no_lock_across_io_fails :
  frameSync (g (Sample.run Sample2.to_header)) = false /\
  wire (env (Sample.run (Sample2.to_header ++ [StreamStep])))
  = (1%nat, Text CTNTTYPE) :: wire (env (Sample.run Sample2.to_header)) /\
  ~ no_lock_across_io 1000.
Proof.
  split; [vm_compute; reflexivity|]. split; [vm_compute; reflexivity|].
  intros H.
  assert (Hr : reachable 1000 (Sample.run Sample2.to_header)).
  { exists Sample2.to_header. vm_compute. reflexivity. }
  assert (Hs : step 1000 StreamStep (Sample.run Sample2.to_header)
               = Some (Sample.run (Sample2.to_header ++ [StreamStep])))
    by (vm_compute; reflexivity).
  specialize (H _ _ StreamStep 1%nat (Text CTNTTYPE) Hr Hs).
  assert (Hw : wire (env (Sample.run (Sample2.to_header ++ [StreamStep])))
               = (1%nat, Text CTNTTYPE)
                 :: wire (env (Sample.run Sample2.to_header)))
    by (vm_compute; reflexivity).
  specialize (H Hw). vm_compute in H. discriminate H.
Qed.

(** ** Pacing and idling *)

Lemma stream_step_pace hz st st' :
  stream_step hz st = Some st' -> spc (strm st) <> S_top ->
  xFrequency (strm st') = xFrequency (strm st).
Proof.
  unfold stream_step. intros H Hpc.
  destruct (spc (strm st)) eqn:E; try (contradiction Hpc; reflexivity);
    split_step H; cbn; reflexivity.
Qed.

Lemma step_pace hz a st st' :
  step hz a st = Some st' -> spc (strm st) <> S_top ->
  xFrequency (strm st') = xFrequency (strm st).
Proof.
  unfold step. intros H Hpc. destruct (device (g st)); try discriminate.
  destruct a.
  1-3: destruct (camSuspended (g st)); [discriminate|]; unfold cam_step in H;
       destruct (cpc (cam st)); try discriminate; split_step H; reflexivity.
  - destruct (streamSuspended (g st)); [discriminate|].
    apply (stream_step_pace hz); assumption.
  - destruct (apc (acc st)); try discriminate. injection H as <-. reflexivity.
  - unfold accept_step in H. destruct (apc (acc st)); split_step H; reflexivity.
  - injection H as <-. reflexivity.
  - injection H as <-. reflexivity.
Qed.

(** ** Registration *)

Local Opaque HEADER BOUNDARY CTNTTYPE.



Lemma spaces_some x :
  Z.of_nat (List.length (streamingClients x)) < QUEUE_LENGTH ->
  (uxQueueSpacesAvailable x =? 0) = false.
Proof. unfold uxQueueSpacesAvailable. intros H. apply Z.eqb_neq. lia. Qed.



(** ** A live client that is not put back *)

(** C6, at the input where the code departs from it.  Ten clients are
    queued; [streamCB] pops client 1 and finds it connected; before it
    re-enqueues, [handleJPGSstream] sees nine queued clients and appends
    client 11.  [streamCB] then serves client 1 the published frame, its
    [xQueueSend] finds the queue full and gives up, and the iteration ends
    with client 1 still connected, served, and in the queue no more. *)
Lemma live_client_dropped_when_queue_refills :
  exec 1000 Scenario.late_arrival init
  = Some (Sample.run Scenario.late_arrival) /\
  connected (env (Sample.run Scenario.late_arrival)) 1%nat = true /\
  firstn 4 (wire (env (Sample.run Scenario.late_arrival)))
  = [(1%nat, Text BOUNDARY); (1%nat, Body Sample.frame1);
     (1%nat, Length 6); (1%nat, Text CTNTTYPE)] /\
  spc (strm (Sample.run Scenario.late_arrival)) = S_sleep /\
  streamingClients (g (Sample.run Scenario.late_arrival))
  = [2; 3; 4; 5; 6; 7; 8; 9; 10; 11]%nat /\
  ~ In 1%nat (streamingClients (g (Sample.run Scenario.late_arrival))).
Proof.
  split; [vm_compute; reflexivity|]. split; [vm_compute; reflexivity|].
  split; [vm_compute; reflexivity|]. split; [vm_compute; reflexivity|].
  split; [vm_compute; reflexivity|].
  vm_compute. intros H.
  repeat (destruct H as [H|H]; [discriminate H|]). exact H.
Qed.

(** ** What reaches the clients *)

Import Wire.

Lemma cam_step_outside a st st' :
  cam_step a st = Some st' ->
  strm st' = strm st /\ wire (env st') = wire (env st) /\
  (published (env st') = published (env st) \/
   exists f, published (env st') = f :: published (env st)).
Proof.
  unfold cam_step. intros H.
  destruct (cpc (cam st)); destruct a; try discriminate; split_step H;
    cbn; repeat split; eauto.
Qed.

Lemma accept_step_outside st st' :
  accept_step st = Some st' ->
  strm st' = strm st /\ published (env st') = published (env st) /\
  frame_parts (wire (env st')) = frame_parts (wire (env st)).
Proof.
  unfold accept_step. intros H.
  destruct (apc (acc st)); split_step H; cbn; repeat split; reflexivity.
Qed.

Lemma body_facts st :
  Inv st -> spc (strm st) = S_w3 ->
  mem_read (heap (g st)) (arg_ptr (strm st)) (arg_len (strm st))
  = Some (latest st) /\
  buf (strm st) = Z.of_nat (List.length (latest st)) /\
  In (latest st) (published (env st)).
Proof.
  intros HI Hpc.
  assert (Hs : stream_holds (spc (strm st)) = true) by (rewrite Hpc; reflexivity).
  destruct (holding_excludes st HI Hs) as [Hc _].
  destruct (inv_pub HI (holds_not_setsize _ Hc)) as [Hsz Hrd].
  assert (Ep : arg_ptr (strm st) = camBuf (g st)).
  { apply (inv_arg_ptr HI). rewrite Hpc. reflexivity. }
  rewrite Ep, (inv_arg_len HI Hpc). split; [assumption|]. split.
  - rewrite (inv_buf HI) by (rewrite Hpc; reflexivity).
    rewrite <- Hsz. apply as_int_small. apply (inv_size HI).
  - unfold latest. destruct (published (env st)) as [|f older] eqn:Hp.
    + destruct (inv_first HI Hp) as (_ & X & _). rewrite X in Hpc.
      discriminate Hpc.
    + left. reflexivity.
Qed.

Lemma stream_step_wire_ok hz st st' :
  Inv st -> wire_ok st -> stream_step hz st = Some st' -> wire_ok st'.
Proof.
  intros HI [served [Hw Hin]] H. unfold stream_step in H.
  unfold wire_ok, pending, frame_parts in *.
  destruct (spc (strm st)) eqn:Hpc; cbn [header_sent] in Hw.
  12: { (* S_w3 *)
    destruct (body_facts st HI Hpc) as (Hrd & Hbuf & Hlat).
    rewrite Hrd in H. injection H as <-. cbn.
    exists ((s_client (strm st), latest st) :: served). split.
    - cbn. rewrite Hw, Hbuf. reflexivity.
    - intros s [<-|Hs]; [exact Hlat | apply Hin; exact Hs]. }
  all: split_step H; cbn; exists served; (split; [|exact Hin]);
    try exact Hw; try (cbn; rewrite Hw; reflexivity).
  all: try (cbn; rewrite Hw; reflexivity).
  all: rewrite Hpc; exact Hw.
Qed.

Lemma step_wire_ok hz a st st' :
  Inv st -> wire_ok st -> step hz a st = Some st' -> wire_ok st'.
Proof.
  intros HI Hok. unfold step. destruct (device (g st)); try discriminate.
  destruct a.
  1-3: destruct (camSuspended (g st)); [discriminate|]; intros H;
       destruct (cam_step_outside _ _ _ H) as (E1 & E2 & E3);
       destruct Hok as [served [Hw Hin]]; exists served;
       unfold pending in *; rewrite E1, E2; (split; [exact Hw|]);
       intros s Hs; destruct E3 as [E3|[? E3]]; rewrite E3;
       [apply Hin; exact Hs | right; apply Hin; exact Hs].
  - destruct (streamSuspended (g st)); [discriminate|].
    apply stream_step_wire_ok; assumption.
  - destruct (apc (acc st)); try discriminate. intros H. injection H as <-.
    exact Hok.
  - intros H. destruct (accept_step_outside _ _ H) as (E1 & E2 & E3).
    destruct Hok as [served [Hw Hin]]. exists served.
    unfold pending in *. rewrite E1, E2, E3. auto.
  - intros H. injection H as <-. exact Hok.
  - intros H. injection H as <-. exact Hok.
Qed.

Lemma reachable_wire_ok hz st : reachable hz st -> wire_ok st.
Proof.
  intros [acts H].
  assert (G : forall st0, Inv st0 -> wire_ok st0 ->
                          exec hz acts st0 = Some st -> wire_ok st).
  { clear H. induction acts as [|a rest IH]; intros st0 HI Hok H; cbn in H.
    - injection H as <-. assumption.
    - destruct (step hz a st0) as [st1|] eqn:E; [|discriminate].
      apply (IH st1); [| |assumption].
      + apply (step_inv hz a st0); assumption.
      + apply (step_wire_ok hz a st0); assumption. }
  apply (G init); [apply init_inv| |assumption].
  exists []. split; [reflexivity|]. intros s [].
Qed.

(** C1. In every state the device can reach, what has been written to the
    clients besides the constant texts is a sequence of whole answers, each
    a length line carrying the length of a published frame followed by
    exactly the bytes of that frame on the same connection, plus the length
    line of the answer under way.  Whenever the stream task is between
    taking and giving [frameSync] on a running device, a frame has been
    published, the globals [(camBuf, camSize)] are the pointer and length
    of the latest publish and the memory behind them holds that frame; the
    step that writes the length line puts that length on the wire, the step
    that writes the body puts that frame on the wire, and no step of any
    task changes the pair, the bytes it designates or the history of
    publishes while the stream task holds the semaphore. *)
Theorem served_frame_is_one_publish :
  forall (hz : Z) (st : state),
    reachable hz st ->
    (exists served : list (client * list byte),
       frame_parts (wire (env st)) = pending st ++ flat_map answer served /\
       forall s, In s served -> In (snd s) (published (env st))) /\
    (device (g st) = Running ->
     stream_holds (spc (strm st)) = true ->
     exists f older,
       published (env st) = f :: older /\
       camSize (g st) = Z.of_nat (List.length f) /\
       mem_read (heap (g st)) (camBuf (g st)) (camSize (g st)) = Some f /\
       (spc (strm st) = S_w2 ->
        exists st',
          step hz StreamStep st = Some st' /\
          st' = strm_goto S_ldbuf
                  (client_write (s_client (strm st))
                     (Length (Z.of_nat (List.length f))) st) /\
          wire (env st')
          = (s_client (strm st), Length (Z.of_nat (List.length f)))
              :: wire (env st)) /\
       (spc (strm st) = S_w3 ->
        buf (strm st) = Z.of_nat (List.length f) /\
        exists st',
          step hz StreamStep st = Some st' /\
          st' = strm_goto S_w4
                  (client_write (s_client (strm st)) (Body f) st) /\
          wire (env st') = (s_client (strm st), Body f) :: wire (env st)) /\
       (forall a st',
          step hz a st = Some st' ->
          published (env st') = published (env st) /\
          camBuf (g st') = camBuf (g st) /\
          camSize (g st') = camSize (g st) /\
          mem_read (heap (g st')) (camBuf (g st')) (camSize (g st'))
          = Some f)).
Proof.
  intros hz st Hr. split; [exact (reachable_wire_ok hz st Hr)|].
  intros Hrun Hs.
  pose proof (reachable_inv hz st Hr) as HI.
  destruct (reachable_parked hz st Hr) as [Hpark _].
  destruct (holding_excludes st HI Hs) as [Hc Hf].
  assert (Hawake : streamSuspended (g st) = false).
  { destruct (streamSuspended (g st)); [|reflexivity].
    rewrite (Hpark eq_refl) in Hs. discriminate Hs. }
  destruct (published (env st)) as [|f older] eqn:Hp.
  { destruct (inv_first HI Hp) as (_ & X & _). rewrite X in Hs. discriminate Hs. }
  destruct (inv_pub HI (holds_not_setsize _ Hc)) as [Hsz Hrd].
  unfold latest in Hsz, Hrd. rewrite Hp in Hsz, Hrd. cbn [hd] in Hsz, Hrd.
  exists f, older. split; [reflexivity|]. split; [assumption|].
  split; [assumption|].
  assert (Hbuf : has_buf (spc (strm st)) = true ->
                 buf (strm st) = Z.of_nat (List.length f)).
  { intros X. rewrite (inv_buf HI X), <- Hsz. apply as_int_small.
    apply (inv_size HI). }
  split; [|split].
  - intros Hpc. eexists. split; [|split; [reflexivity|reflexivity]].
    unfold step. rewrite Hrun, Hawake. unfold stream_step.
    rewrite Hpc. rewrite Hpc in Hbuf. rewrite (Hbuf eq_refl). reflexivity.
  - intros Hpc. rewrite Hpc in Hbuf. split; [apply Hbuf; reflexivity|].
    eexists. split; [|split; [reflexivity|reflexivity]].
    unfold step. rewrite Hrun, Hawake. unfold stream_step. rewrite Hpc.
    assert (Ep : arg_ptr (strm st) = camBuf (g st)).
    { apply (inv_arg_ptr HI). rewrite Hpc. reflexivity. }
    rewrite Ep, (inv_arg_len HI Hpc), Hrd. reflexivity.
  - intros a st' Hstep.
    destruct (step_frame hz a st st' Hstep Hc Hf) as (E1 & E2 & E3 & E4).
    rewrite Hp in E1.
    split; [assumption|]. split; [assumption|]. split; [assumption|].
    pose proof (step_inv hz a st st' HI Hstep) as HI'.
    destruct (inv_pub HI' (holds_not_setsize _ E4)) as [_ Hrd'].
    unfold latest in Hrd'. rewrite E1 in Hrd'. cbn [hd] in Hrd'. exact Hrd'.
Qed.

Lemma served_frame_is_one_publish_witness :
  reachable 1000 (Sample.run Sample.to_body) /\
  device (g (Sample.run Sample.to_body)) = Running /\
  spc (strm (Sample.run Sample.to_body)) = S_w3 /\
  frame_parts (wire (env (Sample.run Sample.to_body))) = [(1%nat, Length 6)] /\
  (exists served : list (client * list byte),
     frame_parts (wire (env (Sample.run Sample.to_body)))
     = pending (Sample.run Sample.to_body) ++ flat_map answer served) /\
  exists st',
    step 1000 StreamStep (Sample.run Sample.to_body) = Some st' /\
    wire (env st')
    = (1%nat, Body Sample.frame1) :: wire (env (Sample.run Sample.to_body)).
Proof.
  assert (Hr : reachable 1000 (Sample.run Sample.to_body)).
  { exists Sample.to_body. vm_compute. reflexivity. }
  assert (Hd : device (g (Sample.run Sample.to_body)) = Running)
    by (vm_compute; reflexivity).
  assert (Hs : stream_holds (spc (strm (Sample.run Sample.to_body))) = true)
    by (vm_compute; reflexivity).
  assert (Hpc : spc (strm (Sample.run Sample.to_body)) = S_w3)
    by (vm_compute; reflexivity).
  split; [exact Hr|]. split; [exact Hd|]. split; [exact Hpc|].
  split; [vm_compute; reflexivity|].
  destruct (served_frame_is_one_publish 1000 (Sample.run Sample.to_body) Hr)
    as [(served & Hw & _) Hhold].
  split; [exists served; exact Hw|].
  destruct (Hhold Hd Hs) as (f & older & Hp & _ & _ & _ & Hbody & _).
  destruct (Hbody Hpc) as (_ & st' & Hstep & _ & Hwire).
  exists st'. split; [exact Hstep|]. rewrite Hwire.
  assert (Ef : f = Sample.frame1).
  { assert (E : published (env (Sample.run Sample.to_body)) = [Sample.frame1])
      by (vm_compute; reflexivity).
    rewrite E in Hp. injection Hp as <- _. reflexivity. }
  rewrite Ef. vm_compute. reflexivity.
Defined.

(** ** The period of an iteration, and the idle device *)

Import Runs.

Lemma exec_app hz a b : forall st,
  exec hz (a ++ b) st
  = match exec hz a st with
    | Some st1 => exec hz b st1
    | None => None
    end.
Proof.
  induction a as [|x a IH]; intros st; cbn; [reflexivity|].
  destruct (step hz x st); [apply IH | reflexivity].
Qed.

Lemma reachable_exec hz acts st st' :
  reachable hz st -> exec hz acts st = Some st' -> reachable hz st'.
Proof.
  intros [pre H] E. exists (pre ++ acts). rewrite exec_app, H. exact E.
Qed.

Lemma exec_iteration_exec hz acts : forall st st',
  exec_iteration hz acts st = Some st' -> exec hz acts st = Some st'.
Proof.
  induction acts as [|a rest IH]; intros st st' H; cbn in *; [exact H|].
  destruct (is_delay a st); [discriminate|].
  destruct (step hz a st); [apply IH; exact H | discriminate].
Qed.

Lemma queue_send_suspended c x :
  streamSuspended (xQueueSend c x) = streamSuspended x.
Proof. apply (queue_send_frame c x). Qed.

Local Ltac fin Hs Hc :=
  first [ destruct Hs; congruence | destruct Hc; congruence ].

Lemma step_counted hz a st st' :
  parked st -> counted st -> step hz a st = Some st' -> counted st'.
Proof.
  unfold step. intros [Hp _] [Hs Hc] H.
  assert (Hs' : streamSuspended (g st) = false \/ activeClients (strm st) = 0).
  { destruct (streamSuspended (g st)); [right; apply Hs; reflexivity | left; reflexivity]. }
  assert (Hc' : spc (strm st) <> S_suspend \/ activeClients (strm st) = 0).
  { destruct (spc (strm st)); try (left; discriminate). right. apply Hc. reflexivity. }
  clear Hs Hc Hp. unfold counted.
  destruct (device (g st)); try discriminate. destruct a.
  1-3: destruct (camSuspended (g st)); [discriminate|]; unfold cam_step in H;
       destruct (cpc (cam st)); try discriminate; split_step H; cbn;
       split; intros X; fin Hs' Hc'.
  - destruct (streamSuspended (g st)) eqn:Hss; [discriminate|].
    unfold stream_step in H.
    destruct (spc (strm st)) eqn:Hpc; split_step H; cbn;
      rewrite ?queue_send_suspended; rewrite ?Hss;
      split; intros X; try discriminate X; try reflexivity;
      try (destruct Hc' as [Y|Y]; congruence).
    apply Z.eqb_eq. apply negb_false_iff. assumption.
  - destruct (apc (acc st)); try discriminate. injection H as <-.
    cbn. split; intros X; fin Hs' Hc'.
  - unfold accept_step in H.
    destruct (apc (acc st)); split_step H; cbn;
      rewrite ?queue_send_suspended;
      split; intros X; try discriminate X; fin Hs' Hc'.
  - injection H as <-. cbn.
    split; intros X; fin Hs' Hc'.
  - injection H as <-. cbn.
    split; intros X; fin Hs' Hc'.
Qed.

Lemma reachable_counted hz st : reachable hz st -> counted st.
Proof.
  intros [acts H].
  assert (G : forall st0, parked st0 -> counted st0 ->
                          exec hz acts st0 = Some st -> counted st).
  { clear H. induction acts as [|a rest IH]; intros st0 P C H; cbn in H.
    - injection H as <-. assumption.
    - destruct (step hz a st0) as [st1|] eqn:E; [|discriminate].
      apply (IH st1); [| |assumption].
      + apply (step_parked hz a st0); assumption.
      + apply (step_counted hz a st0); assumption. }
  apply (G init); [| |assumption].
  - split; cbn; intros X; discriminate X.
  - split; cbn; intros X; [reflexivity | discriminate X].
Qed.

(** Inside an iteration nothing touches the three locals of [streamCB]
    that the delay works with. *)
Lemma step_iteration hz a st st' :
  step hz a st = Some st' -> is_delay a st = false ->
  spc (strm st) <> S_top -> spc (strm st) <> S_wait ->
  xFrequency (strm st') = xFrequency (strm st) /\
  activeClients (strm st') = activeClients (strm st) /\
  xLastWakeTime (strm st') = xLastWakeTime (strm st) /\
  spc (strm st') <> S_top /\ spc (strm st') <> S_wait.
Proof.
  unfold step, is_delay. intros H Hd Ht Hw.
  destruct (device (g st)); try discriminate. destruct a.
  1-3: destruct (camSuspended (g st)); [discriminate|]; unfold cam_step in H;
       destruct (cpc (cam st)); try discriminate; split_step H; cbn; auto.
  - destruct (streamSuspended (g st)); [discriminate|].
    unfold stream_step in H.
    destruct (spc (strm st)) eqn:Hpc; try discriminate Hd;
      try (contradiction Ht; reflexivity); try (contradiction Hw; reflexivity);
      split_step H; cbn; rewrite ?Hpc; repeat split; discriminate.
  - destruct (apc (acc st)); try discriminate. injection H as <-. cbn. auto.
  - unfold accept_step in H. destruct (apc (acc st)); split_step H; cbn; auto.
  - injection H as <-. cbn. auto.
  - injection H as <-. cbn. auto.
Qed.

Lemma exec_iteration_keeps hz acts : forall st st',
  exec_iteration hz acts st = Some st' ->
  spc (strm st) <> S_top -> spc (strm st) <> S_wait ->
  xFrequency (strm st') = xFrequency (strm st) /\
  activeClients (strm st') = activeClients (strm st) /\
  xLastWakeTime (strm st') = xLastWakeTime (strm st).
Proof.
  induction acts as [|a rest IH]; intros st st' H Ht Hw; cbn in H.
  - injection H as <-. auto.
  - destruct (is_delay a st) eqn:Hd; [discriminate|].
    destruct (step hz a st) as [st1|] eqn:E; [|discriminate].
    destruct (step_iteration hz a st st1 E Hd Ht Hw) as (E1 & E2 & E3 & Ht1 & Hw1).
    destruct (IH st1 st' H Ht1 Hw1) as (F1 & F2 & F3).
    rewrite F1, F2, F3. auto.
Qed.

(** With [streamCB] suspended and no request being handled, [streamCB]
    stays suspended and every statement of [camCB] brings it closer to its
    own suspension. *)
Lemma quiet_step hz a st st' :
  step hz a st = Some st' -> quiet a -> streamSuspended (g st) = true ->
  streamSuspended (g st') = true /\
  (camSuspended (g st) = true -> camSuspended (g st') = true) /\
  (if is_cam a
   then camSuspended (g st') = true \/ device (g st') <> Running \/
        (cam_rank (cpc (cam st')) < cam_rank (cpc (cam st)))%nat
   else cpc (cam st') = cpc (cam st)).
Proof.
  unfold step. intros H Hq Hs.
  destruct (device (g st)); try discriminate. destruct a; try contradiction.
  1-3: destruct (camSuspended (g st)); [discriminate|]; unfold cam_step in H;
       destruct (cpc (cam st)) eqn:Hpc; try discriminate; split_step H; cbn;
       rewrite ?Hpc; cbn; try discriminate Hs;
       (split; [assumption|]); (split; [intros X; discriminate X|]);
       try (right; right; lia); try (left; reflexivity);
       try (right; left; discriminate).
  - rewrite Hs in H. discriminate H.
  - injection H as <-. cbn. auto.
  - injection H as <-. cbn. auto.
Qed.

Lemma quiet_run hz acts : forall st st',
  exec hz acts st = Some st' -> Forall quiet acts ->
  streamSuspended (g st) = true ->
  streamSuspended (g st') = true /\
  (camSuspended (g st) = true -> camSuspended (g st') = true) /\
  (camSuspended (g st') = true \/ device (g st') <> Running \/
   (cam_rank (cpc (cam st')) + cam_steps acts <= cam_rank (cpc (cam st)))%nat).
Proof.
  induction acts as [|a rest IH]; intros st st' H Hq Hs; cbn in H.
  - injection H as <-. split; [exact Hs|]. split; [auto|].
    right; right. cbn. lia.
  - destruct (step hz a st) as [st1|] eqn:E; [|discriminate].
    inversion Hq as [|x l Hqa Hqr]; subst.
    destruct (quiet_step hz a st st1 E Hqa Hs) as (S1 & K1 & R1).
    destruct (IH st1 st' H Hqr S1) as (S2 & K2 & R2).
    split; [exact S2|]. split; [auto|].
    unfold cam_steps in *. cbn [filter].
    destruct (is_cam a); cbn [List.length].
    + destruct R1 as [R1|[R1|R1]].
      * left. auto.
      * destruct rest as [|b rest'].
        -- cbn in H. injection H as <-. right; left. exact R1.
        -- cbn in H. unfold step in H.
           destruct (device (g st1)); try discriminate H.
           contradiction R1; reflexivity.
      * destruct R2 as [R2|[R2|R2]]; [left; exact R2 | right; left; exact R2|].
        right; right. lia.
    + rewrite <- R1. exact R2.
Qed.

Lemma cam_rank_pos pc : (1 <= cam_rank pc)%nat.
Proof. destruct pc; cbn; lia. Qed.

Lemma some_eq {A : Type} (x y : A) : Some x = Some y -> x = y.
Proof. intros H. injection H. auto. Qed.

(** C3. On a running device the queue holds N clients with
    0 <= N <= 10.  When [streamCB] is at the top of its loop with N >= 1, its
    step leaves [xFrequency] equal to [pdMS_TO_TICKS(1000 / FPS) / N]
    (integer division), and whatever the tasks do until [streamCB] reaches
    its delay, [xFrequency] still has that value there and
    [vTaskDelayUntil] advances [xLastWakeTime] by exactly that many ticks
    (modulo 2^32).  With N = 0 its next two statements suspend it; from then
    on, as long as no request is handled, it stays suspended and [camCB] is
    suspended too, or the device has stopped, once [camCB] has executed the
    statements that separate it from its idle check, none of which can
    block. *)
Theorem pace_and_idle :
  forall (hz : Z) (st : state),
    reachable hz st -> device (g st) = Running ->
    let N := Z.of_nat (List.length (streamingClients (g st))) in
    0 <= N <= QUEUE_LENGTH /\
    (spc (strm st) = S_top ->
     (1 <= N ->
      exists st1,
        step hz StreamStep st = Some st1 /\
        st1 = strm_goto S_pop
                (in_strm (set_pace (target_period hz / N) N) st) /\
        xFrequency (strm st1) = target_period hz / N /\
        activeClients (strm st1) = N /\
        forall acts st2,
          exec_iteration hz acts st1 = Some st2 ->
          xFrequency (strm st2) = target_period hz / N /\
          (spc (strm st2) = S_sleep -> device (g st2) = Running ->
           exists st3,
             step hz StreamStep st2 = Some st3 /\
             spc (strm st3) = S_top /\
             xLastWakeTime (strm st3)
             = wrap32 (xLastWakeTime (strm st) + target_period hz / N))) /\
     (N = 0 ->
      exists st2,
        exec hz [StreamStep; StreamStep] st = Some st2 /\
        st2 = strm_goto S_sleep
                (in_g (set_streamSuspended true)
                   (strm_goto S_suspend
                      (in_strm (set_pace (target_period hz) 0) st))) /\
        streamSuspended (g st2) = true /\
        forall acts st3,
          exec hz acts st2 = Some st3 -> Forall quiet acts ->
          streamSuspended (g st3) = true /\
          ((cam_rank (cpc (cam st)) <= cam_steps acts)%nat ->
           camSuspended (g st3) = true \/ device (g st3) <> Running))) /\
    (spc (strm st) = S_suspend ->
     step hz StreamStep st
     = Some (strm_goto S_sleep (in_g (set_streamSuspended true) st))) /\
    (forall a st',
       step hz a st = Some st' -> spc (strm st) <> S_top ->
       xFrequency (strm st') = xFrequency (strm st)) /\
    (cpc (cam st) = C_idle ->
     step hz CamStep st
     = Some (if streamSuspended (g st)
             then cam_goto C_run (in_g (set_camSuspended true) st)
             else cam_goto C_run st)) /\
    (streamSuspended (g st) = true ->
     (forall acts st',
        exec hz acts st = Some st' -> Forall quiet acts ->
        streamSuspended (g st') = true /\
        ((cam_rank (cpc (cam st)) <= cam_steps acts)%nat ->
         camSuspended (g st') = true \/ device (g st') <> Running)) /\
     (camSuspended (g st) = false ->
      cpc (cam st) <> C_run -> cpc (cam st) <> C_alloc ->
      exists st', step hz CamStep st = Some st')).
Proof.
  intros hz st Hr Hrun N.
  pose proof (reachable_inv hz st Hr) as HI.
  destruct (reachable_parked hz st Hr) as [Hps Hpc].
  assert (Hquiet : forall s acts s',
             streamSuspended (g s) = true ->
             exec hz acts s = Some s' -> Forall quiet acts ->
             streamSuspended (g s') = true /\
             ((cam_rank (cpc (cam s)) <= cam_steps acts)%nat ->
              camSuspended (g s') = true \/ device (g s') <> Running)).
  { intros s acts s' Hs He Hq.
    destruct (quiet_run hz acts s s' He Hq Hs) as (S1 & _ & R).
    split; [exact S1|]. intros Hle.
    destruct R as [R|[R|R]]; [left; exact R | right; exact R|].
    pose proof (cam_rank_pos (cpc (cam s'))). lia. }
  split; [split; [apply Zle_0_nat | apply (inv_queue HI)]|].
  split; [|split; [|split; [|split]]].
  - intros Htop.
    assert (Hawake : streamSuspended (g st) = false).
    { destruct (streamSuspended (g st)); [|reflexivity].
      rewrite (Hps eq_refl) in Htop. discriminate Htop. }
    split.
    + intros HN.
      assert (Hstep : step hz StreamStep st
                      = Some (strm_goto S_pop
                                (in_strm (set_pace (target_period hz / N) N) st))).
      { unfold step. rewrite Hrun, Hawake. unfold stream_step.
        rewrite Htop. unfold uxQueueMessagesWaiting. fold N.
        destruct (N =? 0) eqn:E; [apply Z.eqb_eq in E; lia | reflexivity]. }
      eexists. split; [exact Hstep|]. split; [reflexivity|].
      split; [reflexivity|]. split; [reflexivity|].
      intros acts st2 Hit.
      destruct (exec_iteration_keeps hz acts _ _ Hit) as (F1 & F2 & F3);
        [cbn; discriminate | cbn; discriminate |].
      cbn in F1, F2, F3. split; [exact F1|].
      intros Hsl Hrun2.
      assert (Hr2 : reachable hz st2).
      { apply (reachable_exec hz (StreamStep :: acts) st); [exact Hr|].
        cbn [exec]. rewrite Hstep. apply exec_iteration_exec. exact Hit. }
      destruct (reachable_counted hz st2 Hr2) as [Hcnt _].
      assert (Hawake2 : streamSuspended (g st2) = false).
      { destruct (streamSuspended (g st2)); [|reflexivity].
        rewrite (Hcnt eq_refl) in F2. lia. }
      eexists. split.
      * unfold step. rewrite Hrun2, Hawake2. unfold stream_step. rewrite Hsl.
        reflexivity.
      * cbn. rewrite F1, F3. split; reflexivity.
    + intros HN.
      assert (Hex : exec hz [StreamStep; StreamStep] st
                    = Some (strm_goto S_sleep
                              (in_g (set_streamSuspended true)
                                 (strm_goto S_suspend
                                    (in_strm (set_pace (target_period hz) 0) st))))).
      { cbn [exec]. unfold step at 1. rewrite Hrun, Hawake.
        unfold stream_step at 1. rewrite Htop. unfold uxQueueMessagesWaiting.
        fold N. rewrite HN. cbn [Z.eqb negb].
        unfold step. cbn. rewrite Hrun, Hawake. reflexivity. }
      eexists. split; [exact Hex|]. split; [reflexivity|].
      split; [reflexivity|].
      intros acts st3 He Hq.
      apply (fun X => Hquiet _ acts st3 X He Hq). reflexivity.
  - intros Hs.
    assert (Hawake : streamSuspended (g st) = false).
    { destruct (streamSuspended (g st)); [|reflexivity].
      rewrite (Hps eq_refl) in Hs. discriminate Hs. }
    unfold step. rewrite Hrun, Hawake. unfold stream_step. rewrite Hs.
    reflexivity.
  - intros a st'. apply step_pace.
  - intros Hidle.
    assert (Hawake : camSuspended (g st) = false).
    { destruct (camSuspended (g st)); [|reflexivity].
      rewrite (Hpc eq_refl) in Hidle. discriminate Hidle. }
    unfold step. rewrite Hrun, Hawake. unfold cam_step. rewrite Hidle.
    destruct (streamSuspended (g st)); reflexivity.
  - intros Hss. split.
    + intros acts st' He Hq. apply (Hquiet st acts st' Hss He Hq).
    + intros Hcs Hn1 Hn2. unfold step. rewrite Hrun, Hcs. unfold cam_step.
      pose proof (inv_sem HI) as Hsem. rewrite (Hps Hss) in Hsem.
      cbn [stream_holds] in Hsem. rewrite orb_false_r in Hsem.
      destruct (cpc (cam st)) eqn:E;
        try (contradiction Hn1; reflexivity);
        try (contradiction Hn2; reflexivity);
        cbn [cam_holds negb] in Hsem; rewrite ?Hsem;
        repeat match goal with
               | |- context [if ?c then _ else _] => destruct c
               | |- context [match ?c with _ => _ end] => destruct c
               end; eexists; reflexivity.
Qed.

Lemma pace_and_idle_witness :
  reachable 1000 (Sample.run Scenario2.two_watching) /\
  device (g (Sample.run Scenario2.two_watching)) = Running /\
  spc (strm (Sample.run Scenario2.two_watching)) = S_top /\
  Z.of_nat (List.length
              (streamingClients (g (Sample.run Scenario2.two_watching)))) = 2 /\
  xLastWakeTime (strm (Sample.run Scenario2.two_watching)) = 3 /\
  exists st1 st2 st3,
    step 1000 StreamStep (Sample.run Scenario2.two_watching) = Some st1 /\
    xFrequency (strm st1) = 35 /\
    exec_iteration 1000 Scenario2.serve_one st1 = Some st2 /\
    spc (strm st2) = S_sleep /\
    xFrequency (strm st2) = 35 /\
    step 1000 StreamStep st2 = Some st3 /\
    xLastWakeTime (strm st3) = 38.
Proof.
  assert (Hr : reachable 1000 (Sample.run Scenario2.two_watching)).
  { exists Scenario2.two_watching. vm_compute. reflexivity. }
  assert (Hd : device (g (Sample.run Scenario2.two_watching)) = Running)
    by (vm_compute; reflexivity).
  assert (Hpc : spc (strm (Sample.run Scenario2.two_watching)) = S_top)
    by (vm_compute; reflexivity).
  assert (Hn : Z.of_nat (List.length
                 (streamingClients (g (Sample.run Scenario2.two_watching)))) = 2)
    by (vm_compute; reflexivity).
  split; [exact Hr|]. split; [exact Hd|]. split; [exact Hpc|].
  split; [exact Hn|]. split; [vm_compute; reflexivity|].
  destruct (pace_and_idle 1000 (Sample.run Scenario2.two_watching) Hr Hd)
    as (_ & Htop & _).
  destruct (Htop Hpc) as [Hpos _]. rewrite Hn in Hpos.
  destruct (Hpos ltac:(lia)) as (st1 & Hstep & _ & Hf & _ & Hiter).
  assert (E2 : exec_iteration 1000 Scenario2.serve_one st1
               = Some (Sample.run (Scenario2.two_watching
                                   ++ StreamStep :: Scenario2.serve_one))).
  { assert (E1 : step 1000 StreamStep (Sample.run Scenario2.two_watching)
                 = Some (Sample.run (Scenario2.two_watching ++ [StreamStep])))
      by (vm_compute; reflexivity).
    clear Hf Hiter. rewrite E1 in Hstep. apply some_eq in Hstep.
    rewrite <- Hstep. vm_compute. reflexivity. }
  destruct (Hiter _ _ E2) as [Hf2 Hsl].
  destruct Hsl as (st3 & Hs3 & _ & Hw3);
    [vm_compute; reflexivity | vm_compute; reflexivity |].
  exists st1, (Sample.run (Scenario2.two_watching
                           ++ StreamStep :: Scenario2.serve_one)), st3.
  split; [exact Hstep|]. split; [rewrite Hf; vm_compute; reflexivity|].
  split; [exact E2|]. split; [vm_compute; reflexivity|].
  split; [rewrite Hf2; vm_compute; reflexivity|].
  split; [exact Hs3|]. rewrite Hw3. vm_compute. reflexivity.
Defined.

(** ** A registration that is answered and not queued *)

(** C5, at the input where the code departs from it.  Ten clients are
    queued and [streamCB] has popped client 1, so the request of client 11
    finds nine clients queued, below capacity.  [handleJPGSstream] passes
    its check and writes the prologue to client 11; [streamCB] re-enqueues
    client 1 first; the handler's [xQueueSend] then finds the queue full
    and gives up, and the handler returns.  Client 11 has been answered,
    is not in the queue, and ten clients are queued as before. *)
Lemma late_request_answered_but_not_queued :
  exec 1000 Scenario3.late_push init
  = Some (Sample.run Scenario3.late_push) /\
  device (g (Sample.run Scenario3.popped)) = Running /\
  apc (acc (Sample.run Scenario3.popped)) = A_idle /\
  Z.of_nat (List.length (streamingClients (g (Sample.run Scenario3.popped))))
  = 9 /\
  apc (acc (Sample.run Scenario3.late_push)) = A_idle /\
  Scenario3.sent_to 11%nat (wire (env (Sample.run Scenario3.late_push)))
  = [(11%nat, Text BOUNDARY); (11%nat, Text HEADER)] /\
  streamingClients (g (Sample.run Scenario3.late_push))
  = [2; 3; 4; 5; 6; 7; 8; 9; 10; 1]%nat /\
  ~ In 11%nat (streamingClients (g (Sample.run Scenario3.late_push))).
Proof.
  split; [vm_compute; reflexivity|]. split; [vm_compute; reflexivity|].
  split; [vm_compute; reflexivity|]. split; [vm_compute; reflexivity|].
  split; [vm_compute; reflexivity|]. split; [vm_compute; reflexivity|].
  split; [vm_compute; reflexivity|].
  vm_compute. intros H.
  repeat (destruct H as [H|H]; [discriminate H|]). exact H.
Qed.

(** ** Mutual exclusion and memory safety *)

(** X1. In every state the device can reach at most one of [camCB] and
    [streamCB] is between its [xSemaphoreTake] and its [xSemaphoreGive] on
    [frameSync], and the semaphore is available exactly when neither
    is. *)
Theorem frameSync_mutual_exclusion :
  forall (hz : Z) (st : state),
    reachable hz st ->
    cam_holds (cpc (cam st)) && stream_holds (spc (strm st)) = false /\
    frameSync (g st)
    = negb (cam_holds (cpc (cam st)) || stream_holds (spc (strm st))).
Proof.
  intros hz st Hr. pose proof (reachable_inv hz st Hr) as HI.
  split; [apply (inv_excl HI) | apply (inv_sem HI)].
Qed.

Lemma frameSync_mutual_exclusion_witness :
  reachable 1000 (Sample.run Sample.to_body) /\
  stream_holds (spc (strm (Sample.run Sample.to_body))) = true /\
  cam_holds (cpc (cam (Sample.run Sample.to_body))) = false /\
  frameSync (g (Sample.run Sample.to_body)) = false.
Proof.
  assert (Hr : reachable 1000 (Sample.run Sample.to_body)).
  { exists Sample.to_body. vm_compute. reflexivity. }
  assert (Hs : stream_holds (spc (strm (Sample.run Sample.to_body))) = true)
    by (vm_compute; reflexivity).
  destruct (frameSync_mutual_exclusion 1000 (Sample.run Sample.to_body) Hr)
    as [He Hm].
  rewrite Hs in He, Hm. rewrite andb_true_r in He. rewrite orb_true_r in Hm.
  split; [exact Hr|]. split; [exact Hs|]. split; [exact He | exact Hm].
Defined.

Lemma step_fits hz a st st' :
  Inv st -> fits st -> step hz a st = Some st' -> fits st'.
Proof.
  unfold fits, step. intros HI Hf H.
  destruct (device (g st)); try discriminate. destruct a.
  1-3: destruct (camSuspended (g st)); [discriminate|]; unfold cam_step in H;
       destruct (cpc (cam st)) eqn:Hpc; try discriminate; split_step H; cbn;
       intros [X|X]; try discriminate X; intros Hlt.
  1-7: first
    [ apply Hf; [first [left; reflexivity | right; reflexivity] | exact Hlt]
    | rewrite upd_same;
      pose proof (inv_frame HI) as Hlen;
      assert (0 <= cam_s (cam st)) by (rewrite Hlen; apply Zle_0_nat);
      unfold wrap32; rewrite Z.mod_small by lia;
      apply Z.div_le_lower_bound; lia
    | match goal with
      | Hgt : (_ >? _) = false |- _ =>
          rewrite Z.gtb_ltb in Hgt; apply Z.ltb_ge in Hgt; exact Hgt
      end ].
  - destruct (streamSuspended (g st)); [discriminate|].
    unfold stream_step in H.
    destruct (spc (strm st)); split_step H; cbn; exact Hf.
  - destruct (apc (acc st)); try discriminate. injection H as <-. exact Hf.
  - unfold accept_step in H. destruct (apc (acc st)); split_step H; cbn;
      exact Hf.
  - injection H as <-. exact Hf.
  - injection H as <-. exact Hf.
Qed.

Lemma reachable_fits hz st : reachable hz st -> fits st.
Proof.
  intros [acts H].
  assert (G : forall st0, Inv st0 -> fits st0 ->
                          exec hz acts st0 = Some st -> fits st).
  { clear H. induction acts as [|a rest IH]; intros st0 HI Hf H; cbn in H.
    - injection H as <-. assumption.
    - destruct (step hz a st0) as [st1|] eqn:E; [|discriminate].
      apply (IH st1); [| |assumption].
      + apply (step_inv hz a st0); assumption.
      + apply (step_fits hz a st0); assumption. }
  apply (G init); [apply init_inv| |assumption].
  intros [X|X]; discriminate X.
Qed.

Lemma memcpy_fits m p src n blk :
  m p = Some blk -> n <= Z.of_nat (List.length blk) ->
  exists m', memcpy m p src n = Some m'.
Proof.
  intros Hb Hle. unfold memcpy. destruct (n =? 0); [eexists; reflexivity|].
  rewrite Hb. apply Z.leb_le in Hle. rewrite Hle. eexists. reflexivity.
Qed.

Lemma queue_send_device c x : device (xQueueSend c x) = device x.
Proof. apply (queue_send_frame c x). Qed.

(** X2. No statement of the three tasks has undefined behaviour as long as
    the frames the camera delivers are shorter than 2^30 bytes: [streamCB]
    never receives from an empty queue and never reads past the published
    buffer, and the [memcpy] of [camCB] stays inside the slot it copies
    to.  A step then leaves the device running or, on an allocation
    failure, restarting. *)
Theorem steps_stay_defined :
  forall (hz : Z) (st st' : state) (a : action),
    reachable hz st -> step hz a st = Some st' ->
    (cpc (cam st) = C_copy -> cam_s (cam st) < 2 ^ 30) ->
    device (g st') <> Undefined /\
    (a = StreamStep -> device (g st') = Running).
Proof.
  intros hz st st' a Hr H Hsmall.
  pose proof (reachable_inv hz st Hr) as HI.
  pose proof (reachable_fits hz st Hr) as Hf.
  unfold step in H. destruct (device (g st)) eqn:Hd; try discriminate.
  destruct a.
  1-3: destruct (camSuspended (g st)); [discriminate|]; unfold cam_step in H;
       destruct (cpc (cam st)) eqn:Hpc; try discriminate.
  1-13: try (split_step H; cbn; rewrite ?Hd; split; discriminate).
  - (* memcpy *)
    assert (Hcp : exists m', memcpy (heap (g st)) (fbs (cam st) (ifb (cam st)))
                               (cam_b (cam st)) (cam_s (cam st)) = Some m').
    { pose proof (Hf (or_intror Hpc) (Hsmall eq_refl)) as Hle.
      destruct (inv_this HI) as [X|[[_ Hz]|(_ & blk & Hb & Hlen)]].
      - rewrite Hpc in X. discriminate X.
      - pose proof (inv_frame HI) as Hl.
        assert (E0 : cam_s (cam st) = 0).
        { assert (0 <= cam_s (cam st)) by (rewrite Hl; apply Zle_0_nat). lia. }
        unfold memcpy. rewrite E0. eexists. reflexivity.
      - apply (memcpy_fits _ _ _ _ blk Hb). lia. }
    destruct Hcp as [m' Hcp]. rewrite Hcp in H. injection H as <-. cbn.
    rewrite Hd. split; discriminate.
  - destruct (streamSuspended (g st)); [discriminate|].
    assert (G : device (g st') = Running).
    { unfold stream_step in H.
      destruct (spc (strm st)) eqn:Hpc.
      12: { destruct (body_facts st HI Hpc) as (Hrd & _).
            rewrite Hrd in H. injection H as <-. exact Hd. }
      3: { pose proof (inv_pop HI Hpc) as Hne.
           destruct (streamingClients (g st)); [contradiction Hne; reflexivity|].
           injection H as <-. exact Hd. }
      all: split_step H; cbn; rewrite ?queue_send_device; exact Hd. }
    rewrite G. split; [discriminate | reflexivity].
  - destruct (apc (acc st)); try discriminate. injection H as <-. cbn.
    rewrite Hd. split; discriminate.
  - unfold accept_step in H. destruct (apc (acc st)); split_step H; cbn;
      rewrite ?queue_send_device, Hd; split; discriminate.
  - injection H as <-. cbn. rewrite Hd. split; discriminate.
  - injection H as <-. cbn. rewrite Hd. split; discriminate.
Qed.

Lemma steps_stay_defined_witness :
  reachable 1000 (Sample.run Sample3.to_copy) /\
  cpc (cam (Sample.run Sample3.to_copy)) = C_copy /\
  cam_s (cam (Sample.run Sample3.to_copy)) = 6 /\
  exists st',
    step 1000 CamStep (Sample.run Sample3.to_copy) = Some st' /\
    device (g st') <> Undefined.
Proof.
  assert (Hr : reachable 1000 (Sample.run Sample3.to_copy)).
  { exists Sample3.to_copy. vm_compute. reflexivity. }
  split; [exact Hr|]. split; [vm_compute; reflexivity|].
  split; [vm_compute; reflexivity|].
  exists (Sample.run (Sample3.to_copy ++ [CamStep])).
  assert (Hs : step 1000 CamStep (Sample.run Sample3.to_copy)
               = Some (Sample.run (Sample3.to_copy ++ [CamStep])))
    by (vm_compute; reflexivity).
  split; [exact Hs|].
  apply (steps_stay_defined 1000 (Sample.run Sample3.to_copy) _ CamStep Hr Hs).
  intros _. vm_compute. reflexivity.
Defined.

(** ** Before the first frame, and tasks at rest *)

(** X3. Until [camCB] has published its first frame [streamCB] stays in its
    initial wait, no notification is pending, and no length line or frame
    body has been written to any client. *)
Theorem nothing_served_before_first_frame :
  forall (hz : Z) (st : state),
    reachable hz st -> published (env st) = [] ->
    spc (strm st) = S_wait /\ notifyValue (g st) = 0 /\
    frame_parts (wire (env st)) = [].
Proof.
  intros hz st Hr Hp. pose proof (reachable_inv hz st Hr) as HI.
  destruct (inv_first HI Hp) as (Hn & Hw & _).
  split; [exact Hw|]. split; [exact Hn|].
  destruct (reachable_wire_ok hz st Hr) as (served & Hfp & Hin).
  rewrite Hfp. unfold pending. rewrite Hw. cbn [header_sent app].
  destruct served as [|s rest]; [reflexivity|].
  exfalso. specialize (Hin s (or_introl eq_refl)). rewrite Hp in Hin.
  exact Hin.
Qed.

Lemma nothing_served_before_first_frame_witness :
  reachable 1000 (Sample.run (Sample.register 1%nat)) /\
  wire (env (Sample.run (Sample.register 1%nat)))
  = [(1%nat, Text BOUNDARY); (1%nat, Text HEADER)] /\
  spc (strm (Sample.run (Sample.register 1%nat))) = S_wait /\
  frame_parts (wire (env (Sample.run (Sample.register 1%nat)))) = [].
Proof.
  assert (Hr : reachable 1000 (Sample.run (Sample.register 1%nat))).
  { exists (Sample.register 1%nat). vm_compute. reflexivity. }
  split; [exact Hr|]. split; [vm_compute; reflexivity|].
  destruct (nothing_served_before_first_frame 1000 _ Hr) as (Hw & _ & Hf).
  - vm_compute. reflexivity.
  - split; [exact Hw | exact Hf].
Defined.

(** X4. A suspended task rests at the statement after its [vTaskSuspend]
    and holds nothing: a suspended [streamCB] counted no client and is at
    its delay, a suspended [camCB] is at the top of its loop, neither is
    inside its [frameSync] section, and with both suspended the semaphore
    is available. *)
Theorem suspended_tasks_hold_nothing :
  forall (hz : Z) (st : state),
    reachable hz st ->
    (streamSuspended (g st) = true ->
     spc (strm st) = S_sleep /\ activeClients (strm st) = 0 /\
     stream_holds (spc (strm st)) = false) /\
    (camSuspended (g st) = true ->
     cpc (cam st) = C_run /\ cam_holds (cpc (cam st)) = false) /\
    (streamSuspended (g st) = true -> camSuspended (g st) = true ->
     frameSync (g st) = true).
Proof.
  intros hz st Hr.
  destruct (reachable_parked hz st Hr) as [Hps Hpc].
  destruct (reachable_counted hz st Hr) as [Hcnt _].
  pose proof (reachable_inv hz st Hr) as HI.
  split; [|split].
  - intros Hs. rewrite (Hps Hs). split; [reflexivity|].
    split; [apply Hcnt; exact Hs | reflexivity].
  - intros Hc. rewrite (Hpc Hc). split; reflexivity.
  - intros Hs Hc. rewrite (inv_sem HI), (Hps Hs), (Hpc Hc). reflexivity.
Qed.

Lemma suspended_tasks_hold_nothing_witness :
  reachable 1000 (Sample.run Scenario4.all_idle) /\
  streamSuspended (g (Sample.run Scenario4.all_idle)) = true /\
  camSuspended (g (Sample.run Scenario4.all_idle)) = true /\
  frameSync (g (Sample.run Scenario4.all_idle)) = true.
Proof.
  assert (Hr : reachable 1000 (Sample.run Scenario4.all_idle)).
  { exists Scenario4.all_idle. vm_compute. reflexivity. }
  assert (Hs : streamSuspended (g (Sample.run Scenario4.all_idle)) = true)
    by (vm_compute; reflexivity).
  assert (Hc : camSuspended (g (Sample.run Scenario4.all_idle)) = true)
    by (vm_compute; reflexivity).
  split; [exact Hr|]. split; [exact Hs|]. split; [exact Hc|].
  destruct (suspended_tasks_hold_nothing 1000 _ Hr) as (_ & _ & Hboth).
  exact (Hboth Hs Hc).
Defined.



(** X6. A wake-up that is missed.  [streamCB] has counted no client and is
    about to suspend itself when client 2 registers: [handleJPGSstream]
    queues it and finds no task suspended, so it resumes none, and
    [streamCB] then suspends itself with client 2 waiting in the queue.
    Nothing is streamed to client 2 until another request resumes the
    task. *)
Lemma registration_can_miss_the_suspension :
  exec 1000 Scenario4.missed_wakeup init
  = Some (Sample.run Scenario4.missed_wakeup) /\
  spc (strm (Sample.run Scenario4.none_left)) = S_suspend /\
  streamingClients (g (Sample.run Scenario4.none_left)) = [] /\
  streamingClients (g (Sample.run Scenario4.missed_wakeup)) = [2%nat] /\
  connected (env (Sample.run Scenario4.missed_wakeup)) 2%nat = true /\
  apc (acc (Sample.run Scenario4.missed_wakeup)) = A_idle /\
  streamSuspended (g (Sample.run Scenario4.missed_wakeup)) = true /\
  step 1000 StreamStep (Sample.run Scenario4.missed_wakeup) = None.
Proof.
  repeat (split; [vm_compute; reflexivity|]). vm_compute. reflexivity.
Qed.

(** ** One service, undisturbed *)

Ltac run_on :=
  cbv - [Z.of_nat Z.ltb Z.sub Z.eqb Z.add Z.leb HEADER BOUNDARY CTNTTYPE
         Datatypes.length app client mem_read as_int wrap32].

(** X7. One iteration of [streamCB] during which no other task touches the
    queue.  A popped client that has hung up is deleted: nothing is
    written and it is not queued again, so the queue is one shorter.  A
    popped client that is connected is sent the part header, the length of
    the latest published frame, that frame and the boundary, and is queued
    again at the back; the semaphore is given back. *)
Theorem service_undisturbed :
  forall (hz : Z) (st : state) (c : client) (q : list client),
    reachable hz st -> device (g st) = Running ->
    spc (strm st) = S_pop -> streamingClients (g st) = c :: q ->
    (connected (env st) c = false ->
     exists st',
       exec hz Service.discard st = Some st' /\
       spc (strm st') = S_sleep /\
       streamingClients (g st') = q /\
       wire (env st') = wire (env st)) /\
    (connected (env st) c = true -> cam_holds (cpc (cam st)) = false ->
     exists st',
       exec hz Service.serve st = Some st' /\
       spc (strm st') = S_sleep /\
       streamingClients (g st') = q ++ [c] /\
       wire (env st') = Service.part c (latest st) ++ wire (env st) /\
       frameSync (g st') = true).
Proof.
  intros hz st c q Hr Hrun Hpc Hq.
  pose proof (reachable_inv hz st Hr) as HI.
  destruct (reachable_parked hz st Hr) as [Hps _].
  assert (Hawake : streamSuspended (g st) = false).
  { destruct (streamSuspended (g st)); [|reflexivity].
    rewrite (Hps eq_refl) in Hpc. discriminate Hpc. }
  split.
  - intros Hconn.
    destruct st as [gs cs ss as_ es]. cbn in Hrun, Hpc, Hq, Hawake, Hconn |- *.
    destruct gs as [cb csz fs q0 nv csus ssus hp dv].
    destruct ss as [pc lw xf ac sc bf ap al].
    destruct es as [nw conn w pub].
    cbn in Hrun, Hpc, Hq, Hawake, Hconn |- *. subst dv pc q0 ssus.
    run_on. rewrite Hconn. run_on.
    eexists. split; [reflexivity|]. repeat split; reflexivity.
  - intros Hconn Hcam.
    assert (Hfs : frameSync (g st) = true).
    { rewrite (inv_sem HI), Hcam, Hpc. reflexivity. }
    destruct (inv_pub HI (holds_not_setsize _ Hcam)) as [Hsz Hrd].
    assert (Hbuf : as_int (camSize (g st)) = Z.of_nat (List.length (latest st))).
    { rewrite <- Hsz. apply as_int_small. apply (inv_size HI). }
    assert (Hlen : (Z.of_nat (List.length q) <? 10) = true).
    { pose proof (inv_queue HI) as Hle. rewrite Hq in Hle.
      unfold QUEUE_LENGTH in Hle. cbn [List.length] in Hle.
      apply Z.ltb_lt. lia. }
    remember (latest st) as L eqn:HL. clear HL HI Hr Hps Hsz.
    destruct st as [gs cs ss as_ es].
    cbn in Hrun, Hpc, Hq, Hawake, Hconn, Hfs, Hrd, Hbuf |- *.
    destruct gs as [cb csz fs q0 nv csus ssus hp dv].
    destruct ss as [pc lw xf ac sc bf ap al].
    destruct es as [nw conn w pub].
    cbn in Hrun, Hpc, Hq, Hawake, Hconn, Hfs, Hrd, Hbuf |- *.
    subst dv pc q0 ssus fs.
    run_on. rewrite Hconn. run_on. rewrite Hbuf, Hrd. run_on.
    rewrite Hlen. run_on.
    eexists. split; [reflexivity|]. repeat split; reflexivity.
Qed.

Lemma service_undisturbed_witness :
  reachable 1000 (Sample.run (Scenario.to_top ++ [StreamStep])) /\
  exists st',
    exec 1000 Service.serve (Sample.run (Scenario.to_top ++ [StreamStep]))
    = Some st' /\
    streamingClients (g st') = [1%nat] /\
    wire (env st')
    = Service.part 1%nat Sample.frame1
      ++ wire (env (Sample.run (Scenario.to_top ++ [StreamStep]))).
Proof.
  assert (Hr : reachable 1000 (Sample.run (Scenario.to_top ++ [StreamStep]))).
  { exists (Scenario.to_top ++ [StreamStep]). vm_compute. reflexivity. }
  split; [exact Hr|].
  destruct (service_undisturbed 1000 _ 1%nat [] Hr) as [_ Hlive];
    [vm_compute; reflexivity | vm_compute; reflexivity
     | vm_compute; reflexivity |].
  destruct Hlive as (st' & He & _ & Hq' & Hw & _);
    [vm_compute; reflexivity | vm_compute; reflexivity |].
  exists st'. split; [exact He|]. split; [exact Hq'|]. exact Hw.
Defined.

(** ** Slot capacities on the device *)

(** X8. On the device no statement of any task lowers the capacity of a
    frame slot as long as frames are shorter than 2^30 bytes, and the only
    statement that changes one is line 177 of [camCB], which sets the slot
    in turn to [s * 4 / 3], enough for the frame in hand. *)
Theorem capacity_grows_on_device :
  forall (hz : Z) (st st' : state) (a : action) (i : Z),
    reachable hz st -> step hz a st = Some st' ->
    (cpc (cam st) = C_check -> cam_s (cam st) < 2 ^ 30) ->
    fSize (cam st) i <= fSize (cam st') i /\
    (fSize (cam st') i <> fSize (cam st) i ->
     cpc (cam st) = C_check /\ a = CamStep /\ i = ifb (cam st) /\
     fSize (cam st) i < cam_s (cam st) /\
     fSize (cam st') i = cam_s (cam st) * 4 / 3 /\
     cam_s (cam st) <= fSize (cam st') i).
Proof.
  intros hz st st' a i Hr H Hsmall.
  pose proof (reachable_inv hz st Hr) as HI.
  assert (Hsame : forall x : state,
             fSize (cam x) = fSize (cam st) ->
             fSize (cam st) i <= fSize (cam x) i /\
             (fSize (cam x) i <> fSize (cam st) i ->
              cpc (cam st) = C_check /\ a = CamStep /\ i = ifb (cam st) /\
              fSize (cam st) i < cam_s (cam st) /\
              fSize (cam x) i = cam_s (cam st) * 4 / 3 /\
              cam_s (cam st) <= fSize (cam x) i)).
  { intros x E. rewrite E. split; [lia|]. intros X. contradiction X.
    reflexivity. }
  unfold step in H. destruct (device (g st)); try discriminate.
  destruct a.
  1-3: destruct (camSuspended (g st)); [discriminate|]; unfold cam_step in H;
       destruct (cpc (cam st)) eqn:Hpc; try discriminate; split_step H;
       try (apply Hsame; reflexivity).
  - (* line 177 *)
    cbn [cam cam_goto in_cam set_cpc set_fSize fSize].
    pose proof (inv_frame HI) as Hlen.
    assert (H0 : 0 <= cam_s (cam st)) by (rewrite Hlen; apply Zle_0_nat).
    pose proof (Hsmall eq_refl) as Hlt.
    assert (Ew : wrap32 (cam_s (cam st) * 4) = cam_s (cam st) * 4).
    { unfold wrap32. apply Z.mod_small. lia. }
    assert (Hge : cam_s (cam st) <= cam_s (cam st) * 4 / 3).
    { apply Z.div_le_lower_bound; lia. }
    match goal with Hgt : (_ >? _) = true |- _ =>
      rewrite Z.gtb_ltb in Hgt; apply Z.ltb_lt in Hgt; rename Hgt into Hbig end.
    rewrite Ew.
    destruct (Z.eq_dec i (ifb (cam st))) as [->|Hne].
    + rewrite upd_same. split; [lia|]. intros _. repeat split; auto.
    + rewrite (upd_other _ (fSize (cam st))) by exact Hne.
      split; [lia|]. intros X. contradiction X. reflexivity.
  - destruct (streamSuspended (g st)); [discriminate|].
    unfold stream_step in H.
    destruct (spc (strm st)); split_step H; apply Hsame; reflexivity.
  - destruct (apc (acc st)); try discriminate. injection H as <-.
    apply Hsame. reflexivity.
  - unfold accept_step in H. destruct (apc (acc st)); split_step H;
      apply Hsame; reflexivity.
  - injection H as <-. apply Hsame. reflexivity.
  - injection H as <-. apply Hsame. reflexivity.
Qed.

Lemma capacity_grows_on_device_witness :
  reachable 1000 (Sample.run [Grab Sample.frame1]) /\
  cpc (cam (Sample.run [Grab Sample.frame1])) = C_check /\
  fSize (cam (Sample.run [Grab Sample.frame1])) 0 = 0 /\
  fSize (cam (Sample.run [Grab Sample.frame1; CamStep])) 0 = 8 /\
  0 <= 8.
Proof.
  assert (Hr : reachable 1000 (Sample.run [Grab Sample.frame1])).
  { exists [Grab Sample.frame1]. vm_compute. reflexivity. }
  assert (Hs : step 1000 CamStep (Sample.run [Grab Sample.frame1])
               = Some (Sample.run [Grab Sample.frame1; CamStep]))
    by (vm_compute; reflexivity).
  assert (E0 : fSize (cam (Sample.run [Grab Sample.frame1])) 0 = 0)
    by (vm_compute; reflexivity).
  assert (E1 : fSize (cam (Sample.run [Grab Sample.frame1; CamStep])) 0 = 8)
    by (vm_compute; reflexivity).
  split; [exact Hr|]. split; [vm_compute; reflexivity|].
  split; [exact E0|]. split; [exact E1|].
  destruct (capacity_grows_on_device 1000 _ _ CamStep 0 Hr Hs) as [Hle _].
  - intros _. vm_compute. reflexivity.
  - rewrite E0, E1 in Hle. exact Hle.
Defined.

(** ** The allocator's choice of memory *)

Ltac norm_bools :=
  repeat match goal with
         | H : (_ >? _) = _ |- _ => rewrite Z.gtb_ltb in H
         | H : (_ <? _) = true |- _ => apply Z.ltb_lt in H
         | H : (_ <? _) = false |- _ => apply Z.ltb_ge in H
         | H : (_ =? _) = true |- _ => apply Z.eqb_eq in H
         | H : (_ =? _) = false |- _ => apply Z.eqb_neq in H
         end.

Ltac in_cases Y :=
  cbn [In app] in Y;
  repeat match type of Y with
         | _ \/ _ =>
             destruct Y as [Y|Y];
             [first [ discriminate Y
                    | injection Y as <- <-; repeat split; auto; lia ]|]
         | False => contradiction
         end.

(** X9. [allocateMemory] frees the old block first, and only when there
    is one.  It asks [malloc] only when the request is at most two thirds
    of the free heap, and [ps_malloc] only when PSRAM is present with more
    free bytes than the request and either the request exceeds two thirds
    of the free heap or [malloc] has just returned null.  Every allocation
    is for exactly the requested size, and at most one of each is made. *)
Theorem allocateMemory_policy :
  forall (e : Alloc.sdk) (aPtr : ptr) (aSize : Z),
    let calls := fst (Alloc.allocateMemory e aPtr aSize) in
    let heap_limit := wrap32 (Alloc.getFreeHeap e * 2) / 3 in
    (aPtr <> NULL -> exists rest, calls = Alloc.Free aPtr :: rest /\
                                  forall p, ~ In (Alloc.Free p) rest) /\
    (aPtr = NULL -> forall p, ~ In (Alloc.Free p) calls) /\
    (forall n r, In (Alloc.Malloc n r) calls ->
                 n = aSize /\ r = Alloc.malloc e aSize /\
                 aSize <= heap_limit) /\
    (forall n r, In (Alloc.PsMalloc n r) calls ->
                 n = aSize /\ r = Alloc.ps_malloc e aSize /\
                 Alloc.psramFound e = true /\ aSize < Alloc.getFreePsram e /\
                 (heap_limit < aSize \/ Alloc.malloc e aSize = NULL)) /\
    (aSize <= heap_limit ->
     In (Alloc.Malloc aSize (Alloc.malloc e aSize)) calls) /\
    (List.length calls <= 4)%nat.
Proof.
  intros e aPtr aSize calls heap_limit. subst calls heap_limit.
  unfold Alloc.allocateMemory, Alloc.try_allocate.
  destruct (aSize >? wrap32 (Alloc.getFreeHeap e * 2) / 3) eqn:Eh;
    destruct (Alloc.malloc e aSize =? NULL) eqn:Em;
    destruct (Alloc.psramFound e) eqn:Ep; cbn [andb];
    destruct (Alloc.getFreePsram e >? aSize) eqn:Ef;
    cbn; rewrite ?Em; cbn;
    destruct (Alloc.ps_malloc e aSize =? NULL);
    destruct (aPtr =? NULL) eqn:En;
    norm_bools; cbn;
    (split; [|split; [|split; [|split; [|split]]]]).
  all: try (intros X; first [contradiction | lia]).
  all: try (cbn [List.length]; lia).
  all: try (intros _; eexists; split; [reflexivity|]; intros p Y;
            in_cases Y; fail).
  all: try (intros _ p Y; in_cases Y; fail).
  all: try (intros n r Y; in_cases Y; fail).
  all: try (intros _; cbn [In]; auto 6; fail).
Qed.

(** ** More about the /config endpoint *)

Lemma forwarded_setters toInt q ps st :
  In st (map fst (ConfigSpec.forwarded toInt q ps)) -> In st (map snd ps).
Proof.
  induction ps as [|p ps IH]; cbn; [auto|].
  destruct (negb (Config.getParameterFromUrl toInt q (fst p)
                  =? Config.NOT_PROVIDED)); cbn; intros H.
  - destruct H as [H|H]; [left; exact H | right; apply IH; exact H].
  - right. apply IH. exact H.
Qed.

Lemma forwarded_nodup toInt q ps :
  NoDup (map snd ps) -> NoDup (map fst (ConfigSpec.forwarded toInt q ps)).
Proof.
  induction ps as [|p ps IH]; cbn; intros H; [constructor|].
  inversion H as [|x xs Hnot Hnd]; subst.
  destruct (negb (Config.getParameterFromUrl toInt q (fst p)
                  =? Config.NOT_PROVIDED)); cbn.
  - constructor; [|apply IH; exact Hnd].
    intros X. apply Hnot. apply (forwarded_setters toInt q ps). exact X.
  - apply IH. exact Hnd.
Qed.

Lemma forwarded_same_args toInt q q' ps :
  (forall name, In name (map fst ps) ->
                Config.server_arg q' name = Config.server_arg q name) ->
  ConfigSpec.forwarded toInt q' ps = ConfigSpec.forwarded toInt q ps.
Proof.
  induction ps as [|p ps IH]; cbn; intros H; [reflexivity|].
  unfold Config.getParameterFromUrl at 1 2 3 4.
  rewrite (H (fst p)) by (left; reflexivity).
  f_equal. apply IH. intros name Hn. apply H. right. exact Hn.
Qed.

Lemma forwarded_as_filter toInt q ps :
  ConfigSpec.forwarded toInt q ps
  = map (fun p => (snd p, Config.getParameterFromUrl toInt q (fst p)))
        (filter (fun p => negb (Config.getParameterFromUrl toInt q (fst p)
                                =? Config.NOT_PROVIDED)) ps).
Proof.
  unfold ConfigSpec.forwarded.
  induction ps as [|p ps IH]; cbn [flat_map filter map]; [reflexivity|].
  destruct (negb (Config.getParameterFromUrl toInt q (fst p)
                  =? Config.NOT_PROVIDED)); cbn [map app]; rewrite IH;
    reflexivity.
Qed.

Lemma fold_forward_replay (sensor : Type) toInt
    (drive : Config.setter -> sensor -> Z -> sensor * Z) q ps :
  forall g0,
    (Config.cam_sensor (fold_left (Config.forward toInt drive q) ps g0),
     Config.res (fold_left (Config.forward toInt drive q) ps g0))
    = @ConfigRun.replay sensor drive (ConfigSpec.forwarded toInt q ps)
        (Config.cam_sensor g0, Config.res g0).
Proof.
  unfold ConfigRun.replay.
  induction ps as [|p ps IH]; intros g0; cbn [fold_left]; [reflexivity|].
  rewrite IH. unfold ConfigSpec.forwarded. cbn [flat_map].
  unfold Config.forward.
  destruct (negb (Config.getParameterFromUrl toInt q (fst p)
                  =? Config.NOT_PROVIDED)).
  - cbn [app fold_left fst snd].
    destruct (drive (snd p) (Config.cam_sensor g0)
                (Config.getParameterFromUrl toInt q (fst p))) as [s' r].
    reflexivity.
  - reflexivity.
Qed.

(** X10. The setter calls of one request are made in the order of the
    source, whatever the order of the query: they are the recognised
    parameters whose value is not the sentinel, in source order, each with
    its value; no setter is called twice; and two queries that give every
    recognised parameter the same first value lead to the same calls, so
    parameters the handler does not know and repeated keys change
    nothing. *)
Theorem config_calls_in_source_order :
  forall (toInt : string -> Z) (sensor : Type)
         (drive : Config.setter -> sensor -> Z -> sensor * Z)
         (q : Config.query) (s0 : sensor),
    Config.setter_calls toInt drive q s0
    = map (fun p => (snd p, Config.getParameterFromUrl toInt q (fst p)))
          (filter (fun p => negb (Config.getParameterFromUrl toInt q (fst p)
                                  =? Config.NOT_PROVIDED))
                  Config.config_params) /\
    NoDup (map fst (Config.setter_calls toInt drive q s0)) /\
    (forall q' : Config.query,
       (forall name, In name (map fst Config.config_params) ->
                     Config.server_arg q' name = Config.server_arg q name) ->
       Config.setter_calls toInt drive q' s0
       = Config.setter_calls toInt drive q s0).
Proof.
  intros toInt sensor drive q s0.
  rewrite (setter_calls_forwarded toInt sensor drive q s0).
  split; [apply forwarded_as_filter|]. split.
  - apply forwarded_nodup. exact config_setters_nodup.
  - intros q' H. rewrite (setter_calls_forwarded toInt sensor drive q' s0).
    apply forwarded_same_args. exact H.
Qed.

(** X11. A request with a [reset] parameter whose value is not the
    sentinel ends in [ESP.restart] and sends no response, and only such a
    request does; the restart comes after every setter call the rest of
    the query asks for, which are the same as without [reset]. *)
Theorem config_reset_restarts_after_setters :
  forall (toInt : string -> Z) (sensor : Type)
         (drive : Config.setter -> sensor -> Z -> sensor * Z)
         (q : Config.query) (s0 : sensor),
    (snd (Config.handleConfig toInt drive q s0) = Config.EspRestart <->
     Config.getParameterFromUrl toInt q "reset" <> Config.NOT_PROVIDED) /\
    (forall v : string,
       Config.setter_calls toInt drive (("reset"%string, v) :: q) s0
       = Config.setter_calls toInt drive q s0) /\
    (forall v : string,
       v <> EmptyString -> toInt v <> Config.NOT_PROVIDED ->
       snd (Config.handleConfig toInt drive (("reset"%string, v) :: q) s0)
       = Config.EspRestart).
Proof.
  intros toInt sensor drive q s0. split; [|split].
  - unfold Config.handleConfig.
    destruct (Config.getParameterFromUrl toInt q "reset" =? Config.NOT_PROVIDED)
      eqn:E; cbn [negb snd].
    + apply Z.eqb_eq in E. split; [discriminate | intros X; contradiction].
    + apply Z.eqb_neq in E. split; [intros _; exact E | reflexivity].
  - intros v.
    rewrite (setter_calls_forwarded toInt sensor drive q s0).
    rewrite (setter_calls_forwarded toInt sensor drive _ s0).
    apply forwarded_same_args. intros name Hn. cbn [Config.server_arg].
    destruct (String.eqb "reset" name) eqn:E; [|reflexivity].
    apply String.eqb_eq in E. subst name. exfalso.
    cbn in Hn. repeat (destruct Hn as [Hn|Hn]; [discriminate Hn|]). exact Hn.
  - intros v Hv Hne. unfold Config.handleConfig, Config.getParameterFromUrl.
    cbn [Config.server_arg]. rewrite String.eqb_refl.
    destruct v as [|c v']; [contradiction Hv; reflexivity|].
    cbn [String.length Nat.eqb].
    apply Z.eqb_neq in Hne. rewrite Hne. reflexivity.
Qed.

(** X12. The sensor that [handleConfig] leaves behind, and the value of
    [res], are those of the setter calls it made applied one after the
    other in order, each to the sensor left by the one before. *)
Theorem config_sensor_threaded :
  forall (toInt : string -> Z) (sensor : Type)
         (drive : Config.setter -> sensor -> Z -> sensor * Z)
         (q : Config.query) (s0 : sensor),
    (Config.cam_sensor (fst (Config.handleConfig toInt drive q s0)),
     Config.res (fst (Config.handleConfig toInt drive q s0)))
    = @ConfigRun.replay sensor drive
        (Config.setter_calls toInt drive q s0) (s0, 0).
Proof.
  intros toInt sensor drive q s0.
  rewrite (setter_calls_forwarded toInt sensor drive q s0).
  unfold Config.handleConfig.
  destruct (negb (Config.getParameterFromUrl toInt q "reset"
                  =? Config.NOT_PROVIDED)); cbn [fst];
    apply (fold_forward_replay sensor toInt drive q Config.config_params
             {| Config.res := 0; Config.cam_sensor := s0;
                Config.invoked := [] |}).
Qed.

(** ** One pass of the capture loop *)

Lemma copy_fits st :
  Inv st -> fits st -> cpc (cam st) = C_copy -> cam_s (cam st) < 2 ^ 30 ->
  exists m', memcpy (heap (g st)) (fbs (cam st) (ifb (cam st)))
               (cam_b (cam st)) (cam_s (cam st)) = Some m'.
Proof.
  intros HI Hf Hpc Hsmall.
  pose proof (Hf (or_intror Hpc) Hsmall) as Hle.
  destruct (inv_this HI) as [X|[[_ Hz]|(_ & blk & Hb & Hlen)]].
  - rewrite Hpc in X. discriminate X.
  - pose proof (inv_frame HI) as Hl.
    assert (E0 : cam_s (cam st) = 0).
    { assert (0 <= cam_s (cam st)) by (rewrite Hl; apply Zle_0_nat). lia. }
    unfold memcpy. rewrite E0. eexists. reflexivity.
  - apply (memcpy_fits _ _ _ _ blk Hb). lia.
Qed.

(** X14. A pass of [camCB] publishes the frame it grabbed.  From its
    [memcpy] on, with a frame shorter than 2^30 bytes and [streamCB]
    outside its [frameSync] section, eight statements of [camCB] bring it
    to its idle check: the frame in hand is the latest publish, [camBuf]
    is the slot it was copied to and [camSize] its length, the memory
    behind the pair holds exactly that frame, the other slot is in turn
    for the next pass, [streamCB] has been notified and the semaphore is
    available. *)
Theorem capture_pass_publishes :
  forall (hz : Z) (st : state),
    reachable hz st -> device (g st) = Running ->
    cpc (cam st) = C_copy -> cam_s (cam st) < 2 ^ 30 ->
    stream_holds (spc (strm st)) = false ->
    exists st',
      exec hz Capture.finish st = Some st' /\
      cpc (cam st') = C_idle /\
      published (env st') = cam_b (cam st) :: published (env st) /\
      camBuf (g st') = fbs (cam st) (ifb (cam st)) /\
      camSize (g st') = Z.of_nat (List.length (cam_b (cam st))) /\
      mem_read (heap (g st')) (camBuf (g st')) (camSize (g st'))
      = Some (cam_b (cam st)) /\
      ifb (cam st') = 1 - ifb (cam st) /\
      notifyValue (g st') = wrap32 (notifyValue (g st) + 1) /\
      frameSync (g st') = true.
Proof.
  intros hz st Hr Hrun Hpc Hsmall Hsh.
  pose proof (reachable_inv hz st Hr) as HI.
  pose proof (reachable_fits hz st Hr) as Hf.
  destruct (reachable_parked hz st Hr) as [_ Hpk].
  assert (Hawake : camSuspended (g st) = false).
  { destruct (camSuspended (g st)); [|reflexivity].
    rewrite (Hpk eq_refl) in Hpc. discriminate Hpc. }
  assert (Hfs : frameSync (g st) = true).
  { rewrite (inv_sem HI), Hpc, Hsh. reflexivity. }
  destruct (copy_fits st HI Hf Hpc Hsmall) as [m' Hcp].
  assert (Hex : exists st',
             exec hz Capture.finish st = Some st' /\
             cpc (cam st') = C_idle /\
             published (env st') = cam_b (cam st) :: published (env st) /\
             camBuf (g st') = fbs (cam st) (ifb (cam st)) /\
             camSize (g st') = cam_s (cam st) /\
             ifb (cam st') = next_ifb (ifb (cam st)) /\
             notifyValue (g st') = wrap32 (notifyValue (g st) + 1) /\
             frameSync (g st') = true).
  { unfold Capture.finish. cbn [repeat exec].
    unfold step at 1. rewrite Hrun, Hawake. unfold cam_step at 1.
    rewrite Hpc, Hcp.
    unfold step at 1. cbn. rewrite Hrun, Hawake.
    unfold step at 1. cbn. rewrite Hrun, Hawake, Hfs.
    unfold step at 1. cbn. rewrite Hrun, Hawake.
    unfold step at 1. cbn. rewrite Hrun, Hawake.
    unfold step at 1. cbn. rewrite Hrun, Hawake.
    unfold step at 1. cbn. rewrite Hrun, Hawake.
    unfold step at 1. cbn. rewrite Hrun, Hawake.
    eexists. split; [reflexivity|]. cbn. repeat split; reflexivity. }
  destruct Hex as (st' & He & Hc' & Hp' & Hb' & Hs' & Hi' & Hn' & Hf').
  exists st'. split; [exact He|]. split; [exact Hc'|]. split; [exact Hp'|].
  split; [exact Hb'|].
  pose proof (reachable_inv hz st' (reachable_exec hz _ st st' Hr He)) as HI'.
  destruct (inv_pub HI') as [Hsz Hrd]; [rewrite Hc'; discriminate|].
  unfold latest in Hsz, Hrd. rewrite Hp' in Hsz, Hrd. cbn [hd] in Hsz, Hrd.
  split; [exact Hsz|]. split; [exact Hrd|]. split.
  - rewrite Hi'. destruct (inv_ifb HI) as [E|E]; rewrite E; reflexivity.
  - split; [exact Hn' | exact Hf'].
Qed.

Lemma capture_pass_publishes_witness :
  reachable 1000 (Sample.run Sample3.to_copy) /\
  exists st',
    exec 1000 Capture.finish (Sample.run Sample3.to_copy) = Some st' /\
    published (env st') = [Sample.frame1] /\
    camBuf (g st') = 64 /\ camSize (g st') = 6 /\
    mem_read (heap (g st')) 64 6 = Some Sample.frame1.
Proof.
  assert (Hr : reachable 1000 (Sample.run Sample3.to_copy)).
  { exists Sample3.to_copy. vm_compute. reflexivity. }
  split; [exact Hr|].
  destruct (capture_pass_publishes 1000 _ Hr)
    as (st' & He & _ & Hp & Hb & Hs & Hrd & _);
    [vm_compute; reflexivity | vm_compute; reflexivity
     | vm_compute; reflexivity | vm_compute; reflexivity |].
  exists st'. split; [exact He|].
  assert (Eb : camBuf (g st') = 64) by (rewrite Hb; vm_compute; reflexivity).
  assert (Es : camSize (g st') = 6) by (rewrite Hs; vm_compute; reflexivity).
  split; [rewrite Hp; vm_compute; reflexivity|].
  split; [exact Eb|]. split; [exact Es|].
  rewrite Eb, Es in Hrd. rewrite Hrd. vm_compute. reflexivity.
Defined.

(** ** A client that has gone leaves the queue *)

Ltac run_round :=
  cbv - [Z.of_nat Z.ltb Z.sub Z.eqb Z.add Z.leb Z.div Z.mul HEADER BOUNDARY
         CTNTTYPE Datatypes.length app client mem_read as_int wrap32
         target_period].

Lemma live_round hz st c q :
  reachable hz st -> device (g st) = Running ->
  spc (strm st) = S_pop -> streamingClients (g st) = c :: q ->
  connected (env st) c = true -> cam_holds (cpc (cam st)) = false ->
  exists st',
    exec hz Rotation.round st = Some st' /\
    device (g st') = Running /\ spc (strm st') = S_pop /\
    streamingClients (g st') = q ++ [c] /\
    connected (env st') = connected (env st) /\
    cam st' = cam st.
Proof.
  intros Hr Hrun Hpc Hq Hconn Hcam.
  pose proof (reachable_inv hz st Hr) as HI.
  destruct (reachable_parked hz st Hr) as [Hps _].
  assert (Hawake : streamSuspended (g st) = false).
  { destruct (streamSuspended (g st)); [|reflexivity].
    rewrite (Hps eq_refl) in Hpc. discriminate Hpc. }
  assert (Hfs : frameSync (g st) = true).
  { rewrite (inv_sem HI), Hcam, Hpc. reflexivity. }
  destruct (inv_pub HI (holds_not_setsize _ Hcam)) as [Hsz Hrd].
  assert (Hlen : (Z.of_nat (List.length q) <? 10) = true).
  { pose proof (inv_queue HI) as Hle. rewrite Hq in Hle.
    unfold QUEUE_LENGTH in Hle. cbn [List.length] in Hle.
    apply Z.ltb_lt. lia. }
  assert (Hne : (Z.of_nat (List.length (q ++ [c])) =? 0) = false).
  { apply Z.eqb_neq. rewrite length_app. cbn [List.length]. lia. }
  remember (latest st) as L eqn:HL. clear HL HI Hr Hps Hsz.
  destruct st as [gs cs ss as_ es].
  cbn in Hrun, Hpc, Hq, Hawake, Hconn, Hfs, Hrd |- *.
  destruct gs as [cb csz fs q0 nv csus ssus hp dv].
  destruct ss as [pc lw xf ac sc bf ap al].
  destruct es as [nw conn w pub].
  cbn in Hrun, Hpc, Hq, Hawake, Hconn, Hfs, Hrd |- *.
  subst dv pc q0 ssus fs.
  run_round. rewrite Hconn. run_round. rewrite Hrd. run_round.
  rewrite Hlen. run_round. rewrite Hne. run_round.
  eexists. split; [reflexivity|]. repeat split; reflexivity.
Qed.

Lemma dead_round hz st c q :
  reachable hz st -> device (g st) = Running ->
  spc (strm st) = S_pop -> streamingClients (g st) = c :: q ->
  connected (env st) c = false ->
  exists st',
    exec hz (repeat StreamStep 3) st = Some st' /\
    spc (strm st') = S_sleep /\ streamingClients (g st') = q /\
    wire (env st') = wire (env st).
Proof.
  intros Hr Hrun Hpc Hq Hconn.
  destruct (reachable_parked hz st Hr) as [Hps _].
  assert (Hawake : streamSuspended (g st) = false).
  { destruct (streamSuspended (g st)); [|reflexivity].
    rewrite (Hps eq_refl) in Hpc. discriminate Hpc. }
  clear Hr Hps.
  destruct st as [gs cs ss as_ es]. cbn in Hrun, Hpc, Hq, Hawake, Hconn |- *.
  destruct gs as [cb csz fs q0 nv csus ssus hp dv].
  destruct ss as [pc lw xf ac sc bf ap al].
  destruct es as [nw conn w pub].
  cbn in Hrun, Hpc, Hq, Hawake, Hconn |- *. subst dv pc q0 ssus.
  run_round. rewrite Hconn. run_round.
  eexists. split; [reflexivity|]. repeat split; reflexivity.
Qed.

Lemma repeat_plus (A : Type) (x : A) n m :
  repeat x (n + m) = repeat x n ++ repeat x m.
Proof. induction n as [|n IH]; cbn; [reflexivity | rewrite IH; reflexivity]. Qed.

(** X15. A client that has disconnected leaves the queue when its turn
    comes, which takes fewer service steps than the queue has slots.  With
    the clients [pre] ahead of it connected and no other task touching the
    queue or the semaphore, [streamCB] serves each of [pre] once and puts
    it back, then pops the dead client and deletes it: the queue is what
    stood behind it followed by [pre], and [pre] has at most nine
    members. *)
Theorem dead_client_leaves_in_its_turn :
  forall (hz : Z) (pre : list client) (c : client) (post : list client)
         (st : state),
    reachable hz st -> device (g st) = Running ->
    spc (strm st) = S_pop ->
    streamingClients (g st) = pre ++ c :: post ->
    Forall (fun d => connected (env st) d = true) pre ->
    connected (env st) c = false ->
    cam_holds (cpc (cam st)) = false ->
    (List.length pre < 10)%nat /\
    exists st',
      exec hz (Rotation.until_discarded (List.length pre)) st = Some st' /\
      spc (strm st') = S_sleep /\
      streamingClients (g st') = post ++ pre.
Proof.
  intros hz pre c post st Hr Hrun Hpc Hq Hlive Hdead Hcam.
  split.
  { pose proof (inv_queue (reachable_inv hz st Hr)) as Hle.
    rewrite Hq, length_app in Hle. cbn [List.length] in Hle.
    unfold QUEUE_LENGTH in Hle. lia. }
  revert post st Hr Hrun Hpc Hq Hlive Hdead Hcam.
  induction pre as [|d pre IH]; intros post st Hr Hrun Hpc Hq Hlive Hdead Hcam.
  - cbn [app] in Hq.
    destruct (dead_round hz st c post Hr Hrun Hpc Hq Hdead)
      as (st' & He & Hs & Hq' & _).
    exists st'. split; [exact He|]. split; [exact Hs|].
    rewrite app_nil_r. exact Hq'.
  - cbn [app] in Hq. inversion Hlive as [|x l Hd Hrest]; subst.
    destruct (live_round hz st d (pre ++ c :: post) Hr Hrun Hpc Hq Hd Hcam)
      as (st1 & He1 & Hrun1 & Hpc1 & Hq1 & Hconn1 & Hcam1).
    rewrite <- app_assoc in Hq1. cbn [app] in Hq1.
    destruct (IH (post ++ [d]) st1) as (st' & He & Hs & Hq');
      [ apply (reachable_exec hz _ st st1 Hr He1) | exact Hrun1 | exact Hpc1
      | exact Hq1 | rewrite Hconn1; exact Hrest | rewrite Hconn1; exact Hdead
      | rewrite Hcam1; exact Hcam |].
    exists st'. split; [|split; [exact Hs|]].
    + unfold Rotation.until_discarded in *. cbn [List.length].
      replace (14 * S (List.length pre) + 3)%nat
        with (14 + (14 * List.length pre + 3))%nat by lia.
      rewrite repeat_plus, exec_app. fold Rotation.round. rewrite He1.
      exact He.
    + rewrite Hq', <- app_assoc. reflexivity.
Qed.

Lemma dead_client_leaves_in_its_turn_witness :
  reachable 1000 (Sample.run Scenario5.middle_gone) /\
  streamingClients (g (Sample.run Scenario5.middle_gone)) = [1; 2; 3]%nat /\
  exists st',
    exec 1000 (Rotation.until_discarded 1) (Sample.run Scenario5.middle_gone)
    = Some st' /\
    streamingClients (g st') = [3; 1]%nat.
Proof.
  assert (Hr : reachable 1000 (Sample.run Scenario5.middle_gone)).
  { exists Scenario5.middle_gone. vm_compute. reflexivity. }
  split; [exact Hr|]. split; [vm_compute; reflexivity|].
  destruct (dead_client_leaves_in_its_turn 1000 [1%nat] 2%nat [3%nat] _ Hr)
    as (_ & st' & He & _ & Hq);
    [ vm_compute; reflexivity | vm_compute; reflexivity
    | vm_compute; reflexivity
    | constructor; [vm_compute; reflexivity | constructor]
    | vm_compute; reflexivity | vm_compute; reflexivity |].
  exists st'. split; [exact He | exact Hq].
Defined.
